(** * The handle-based facade of the OCCT wrapper (occt_wrapper.cpp)

    A shallow embedding of [occt-wrapper/src/occt_wrapper.cpp]: the handle
    allocator [next_handle], the registry [shape_registry], the error channel
    [write_error], the buffer-returning operations and the text export of
    [occt_generate_mesh_obj].

    The geometry kernel, the file system and [malloc] are collaborators of the
    wrapper.  They are gathered in a record [World] of functions; every
    operation takes the world it runs in, and every theorem holds for all
    worlds. *)

From Stdlib Require Import ZArith String Ascii Strings.Byte DecimalString.
From Stdlib Require Import Floats.PrimFloat Sorting.Sorted DecimalPos DecimalZ.
From stdpp Require Import base option list strings gmap.

Open Scope Z_scope.

(** ** Machine integers *)

(** [uint64_t] arithmetic wraps modulo 2^64. *)
Definition uint64_wrap (z : Z) : Z := z mod 2 ^ 64.

(** [(int)x] for a [size_t] value [x]: the low 32 bits, read as signed. *)
Definition int_of_size_t (z : Z) : Z := (z + 2 ^ 31) mod 2 ^ 32 - 2 ^ 31.

Definition INT_MAX : Z := 2 ^ 31 - 1.

(** [std::to_string] on an unsigned value and [operator<<] on an [int]. *)
Definition to_string (z : Z) : string := NilZero.string_of_int (Z.to_int z).

(** ** The error channel *)

Definition NUL : ascii := Ascii.zero.

(** The characters of [s.c_str()] that a ["%s"] conversion reads: those before
    the first NUL. *)
Fixpoint c_str (s : string) : list ascii :=
  match s with
  | EmptyString => []
  | String c s' => if Ascii.eqb c NUL then [] else c :: c_str s'
  end.

(** What [snprintf(buf, n, "%s", s)] stores for [n > 0]: at most [n - 1]
    characters of [s], then a NUL. *)
Definition snprintf_text (n : Z) (s : string) : list ascii :=
  take (Z.to_nat (n - 1)) (c_str s) ++ [NUL].

(** The caller's buffer after the call: the stored text replaces a prefix,
    the bytes behind it keep their value. *)
Definition snprintf (buf : list ascii) (n : Z) (s : string) : list ascii :=
  snprintf_text n s ++ drop (length (snprintf_text n s)) buf.

(** [out_error] is [None] for a null pointer, and otherwise the present
    content of the caller's buffer. *)
Definition write_error (s : string) (out_error : option (list ascii)) (err_len : Z)
  : option (list ascii) :=
  match out_error with
  | Some buf => if 0 <? err_len then Some (snprintf buf err_len s) else Some buf
  | None => None
  end.

(** ** Collaborators *)

Inductive IFSelect_ReturnStatus :=
| IFSelect_RetVoid | IFSelect_RetDone | IFSelect_RetError
| IFSelect_RetFail | IFSelect_RetStop.

Definition is_RetDone (st : IFSelect_ReturnStatus) : bool :=
  match st with IFSelect_RetDone => true | _ => false end.

(** What a collaborator may throw: something derived from [std::exception],
    with its [what()], or anything else. *)
Inductive exn :=
| std_exception (what : string)
| other_exception.

(** The result of a call into a collaborator. *)
Inductive kres (A : Type) :=
| Done (a : A)
| Raised (e : exn).
Arguments Done {A} a.
Arguments Raised {A} e.

Record gp_Pnt := mk_Pnt { X : float; Y : float; Z_ : float }.

(** [Poly_Triangulation]: nodes and triangles, both numbered from 1 by the
    kernel; a triangle is three node numbers. *)
Record Poly_Triangulation := mk_Tri {
  Nodes : list gp_Pnt;
  Triangles : list (Z * Z * Z)
}.

Definition NbNodes (tri : Poly_Triangulation) : Z := Z.of_nat (length (Nodes tri)).

Record Bnd := mk_Bnd {
  xMin : float; yMin : float; zMin : float;
  xMax : float; yMax : float; zMax : float
}.

(** How a function of the wrapper ends. *)
Inductive completion (R : Type) :=
| Returns (r : R)
| Propagates (e : exn)   (* an exception that no handler of the function catches *)
| Undefined.             (* a read outside a vector *)
Arguments Returns {R} r.
Arguments Propagates {R} e.
Arguments Undefined {R}.

Section Wrapper.

(** [TopoDS_Shape], [TopoDS_Face] and [gp_Trsf] belong to the kernel. *)
Context {Shape Face Trsf : Type}.

Record World := mk_World {
  (* file system and allocator *)
  ofstream_open : string -> bool;
  ifstream_open : string -> bool;
  ifstream_tellg : string -> Z;
  vector_char : Z -> kres unit;
  ifstream_read : string -> Z -> option (list byte);
  malloc : gmap Z (list byte) -> Z -> Z;
  show_double : float -> string;
  (* readers: the file at the path, holding the bytes written there *)
  STEP_ReadFile : string -> list byte -> kres IFSelect_ReturnStatus;
  STEP_TransferRoots : string -> list byte -> kres Z;
  STEP_OneShape : string -> list byte -> kres Shape;
  IGES_ReadFile : string -> list byte -> kres IFSelect_ReturnStatus;
  IGES_TransferRoots : string -> list byte -> kres Z;
  IGES_OneShape : string -> list byte -> kres Shape;
  IsNull : Shape -> bool;
  (* writer *)
  STEP_Transfer : Shape -> kres IFSelect_ReturnStatus;
  STEP_Write : Shape -> string -> kres IFSelect_ReturnStatus;
  (* bounding box: BRepBndLib::Add, then Bnd_Box::Get *)
  Bnd_Box_Get : Shape -> kres Bnd;
  (* boolean algorithms: construct, SetFuzzyValue, Build; [None] when not IsDone *)
  BRepAlgoAPI_Fuse : Shape -> Shape -> float -> kres (option Shape);
  BRepAlgoAPI_Cut : Shape -> Shape -> float -> kres (option Shape);
  BRepAlgoAPI_Common : Shape -> Shape -> float -> kres (option Shape);
  (* meshing: the shape with its triangulation, then its faces *)
  BRepMesh_IncrementalMesh : Shape -> float -> Z -> kres Shape;
  TopExp_faces : Shape -> list Face;
  BRep_Tool_Triangulation : Face -> option (Poly_Triangulation * Trsf);
  Transform : Trsf -> gp_Pnt -> gp_Pnt
}.

(** ** The state of the wrapper

    The two globals of the file, and the buffers it has obtained from
    [malloc] (address to content). *)
Record state := mk_state {
  shape_registry : gmap Z Shape;
  next_handle : Z;
  heap : gmap Z (list byte)
}.

Definition initial_state : state := mk_state ∅ 1 ∅.

Definition set_registry (s : state) (r : gmap Z Shape) : state :=
  mk_state r (next_handle s) (heap s).

(** [next_handle.fetch_add(1)]: the old value, and the state after. *)
Definition fetch_add (s : state) : Z * state :=
  (next_handle s,
   mk_state (shape_registry s) (uint64_wrap (next_handle s + 1)) (heap s)).

(** What a call leaves behind: how it ended, the state, the content of the
    error buffer, and the content of the other cells the caller passed. *)
Record result (R O : Type) := mk_result {
  ret : completion R;
  post : state;
  err : option (list ascii);
  outs : O
}.
#[global] Arguments mk_result {R O} ret post err outs.
#[global] Arguments ret {R O} r.
#[global] Arguments post {R O} r.
#[global] Arguments err {R O} r.
#[global] Arguments outs {R O} r.

(** ** The operations

    Every operation takes the world, its arguments in the order of the C
    signature, and the state; a pointer argument is [None] when null and
    otherwise carries what it points to. *)

(** [write_error(msg, out_error, err_len); return 0;] *)
Definition fail {O : Type} (msg : string) (out_error : option (list ascii)) (err_len : Z)
    (s : state) (o : O) : result Z O :=
  mk_result (Returns 0) s (write_error msg out_error err_len) o.

(** A call into a collaborator inside a [try] block. *)
Notation "'kcall' x ← m ; k" :=
  (match m with Done x => k | Raised e => Raised e end)
  (at level 10, x pattern, m at level 100, k at level 200, only parsing).

Definition occt_init (resource_path : option string)
    (out_error : option (list ascii)) (err_len : Z) (s : state) : result Z unit :=
  mk_result (Returns 1) s out_error tt.

(** [write_temp_file]: the path of the file, or the empty string after a
    diagnostic.  [data] is the memory behind the (non-null) pointer. *)
Definition write_temp_file (W : World) (filename : option string)
    (data : list byte) (len : Z)
    (out_error : option (list ascii)) (err_len : Z) (s : state)
  : string * state * option (list ascii) :=
  let '(id, s1) := fetch_add s in
  let tmp := "/tmp/occt_upload_" +:+ to_string id +:+ "_" +:+ default "upload" filename in
  if ofstream_open W tmp
  then (tmp, s1, out_error)
  else ("", s1, write_error "failed to create temp file" out_error err_len).

(** [h = next_handle.fetch_add(1); shape_registry[h] = shape;] *)
Definition register (shape : Shape) (s : state) : Z * state :=
  let '(h, s1) := fetch_add s in
  (h, set_registry s1 (<[h := shape]> (shape_registry s1))).

(** The body of the [try] block of [occt_load_from_memory]: the file is read
    as STEP, then as IGES. *)
Definition load_try (W : World) (tmp : string) (file : list byte)
    (out_error : option (list ascii)) (err_len : Z) (s : state) : kres (result Z unit) :=
  kcall status ← STEP_ReadFile W tmp file;
  if is_RetDone status then
    kcall roots ← STEP_TransferRoots W tmp file;
    if roots =? 0 then Done (fail "STEP transfer failed" out_error err_len s tt)
    else
      kcall shape ← STEP_OneShape W tmp file;
      if IsNull W shape then Done (fail "STEP produced empty shape" out_error err_len s tt)
      else
        let '(h, s1) := register shape s in
        Done (mk_result (Returns h) s1 out_error tt)
  else
    kcall igesStatus ← IGES_ReadFile W tmp file;
    if is_RetDone igesStatus then
      kcall roots ← IGES_TransferRoots W tmp file;
      if roots =? 0 then Done (fail "IGES transfer failed" out_error err_len s tt)
      else
        kcall shape ← IGES_OneShape W tmp file;
        if IsNull W shape then Done (fail "IGES produced empty shape" out_error err_len s tt)
        else
          let '(h, s1) := register shape s in
          Done (mk_result (Returns h) s1 out_error tt)
    else Done (fail "failed to read as STEP or IGES" out_error err_len s tt).

(** [data] is [None] for a null pointer, and otherwise the bytes behind it,
    of which the first [len] are written to the file. *)
Definition occt_load_from_memory (W : World) (filename : option string)
    (data : option (list byte)) (len : Z)
    (out_error : option (list ascii)) (err_len : Z) (s : state) : result Z unit :=
  match data with
  | None => fail "empty input data" out_error err_len s tt
  | Some bytes =>
    if len =? 0 then fail "empty input data" out_error err_len s tt
    else
      let '(tmp, s1, e1) := write_temp_file W filename bytes len out_error err_len s in
      if String.eqb tmp "" then mk_result (Returns 0) s1 e1 tt
      else
        match load_try W tmp (take (Z.to_nat len) bytes) out_error err_len s1 with
        | Done r => r
        | Raised (std_exception what) => fail ("exception: " +:+ what) out_error err_len s1 tt
        | Raised other_exception => fail "unknown exception during load" out_error err_len s1 tt
        end
  end.

(** The end of both exports: the length [n] is stored through [out_len], the
    pointer that [malloc] returns for that length through [out_buf], and
    after the null test [content] is copied into the buffer.  [size_t] has
    64 bits. *)
Definition emit_buffer (W : World) (content : list byte) (n : Z)
    (out_error : option (list ascii)) (err_len : Z) (s : state)
  : result Z (option Z * option Z) :=
  let len := uint64_wrap n in
  let p := malloc W (heap s) len in
  if p =? 0 then fail "malloc failed" out_error err_len s (Some 0, Some len)
  else
    mk_result (Returns 1)
      (mk_state (shape_registry s) (next_handle s)
                (<[p := take (Z.to_nat len) content]> (heap s)))
      out_error (Some p, Some len).

Definition export_try (W : World) (handle : Z) (shape : Shape)
    (out_buf out_len : option Z)
    (out_error : option (list ascii)) (err_len : Z) (s : state)
  : kres (result Z (option Z * option Z)) :=
  let tmp := "/tmp/occt_export_" +:+ to_string handle +:+ ".step" in
  kcall stat ← STEP_Transfer W shape;
  if negb (is_RetDone stat)
  then Done (fail "STEP transfer in writer failed" out_error err_len s (out_buf, out_len))
  else
    kcall stat2 ← STEP_Write W shape tmp;
    if negb (is_RetDone stat2)
    then Done (fail "STEP write failed" out_error err_len s (out_buf, out_len))
    else
      if negb (ifstream_open W tmp)
      then Done (fail "cannot open tmp step for reading" out_error err_len s (out_buf, out_len))
      else
        let size := ifstream_tellg W tmp in
        kcall _ ← vector_char W size;
        match ifstream_read W tmp size with
        | None => Done (fail "failed to read tmp step file" out_error err_len s (out_buf, out_len))
        | Some buffer => Done (emit_buffer W buffer size out_error err_len s)
        end.

(** [out_buf] and [out_len] are [None] for a null pointer, and otherwise the
    value in the caller's cell; the result carries the cells after. *)
Definition occt_export_step (W : World) (handle : Z) (out_buf out_len : option Z)
    (out_error : option (list ascii)) (err_len : Z) (s : state)
  : result Z (option Z * option Z) :=
  match out_buf, out_len with
  | Some _, Some _ =>
    match shape_registry s !! handle with
    | None => fail "handle not found" out_error err_len s (out_buf, out_len)
    | Some shape =>
      match export_try W handle shape out_buf out_len out_error err_len s with
      | Done r => r
      | Raised (std_exception what) =>
        fail ("exception: " +:+ what) out_error err_len s (out_buf, out_len)
      | Raised e => mk_result (Propagates e) s out_error (out_buf, out_len)
      end
    end
  | _, _ => fail "invalid output pointers" out_error err_len s (out_buf, out_len)
  end.

(** [if (p) *p = v;] *)
Definition store_if {A : Type} (p : option A) (v : A) : option A :=
  match p with Some _ => Some v | None => None end.

Definition occt_get_bounds (W : World) (handle : Z)
    (minx miny minz maxx maxy maxz : option float)
    (out_error : option (list ascii)) (err_len : Z) (s : state)
  : result Z (list (option float)) :=
  let cells := [minx; miny; minz; maxx; maxy; maxz] in
  match shape_registry s !! handle with
  | None => fail "handle not found" out_error err_len s cells
  | Some shape =>
    match Bnd_Box_Get W shape with
    | Done box =>
      mk_result (Returns 1) s out_error
        [store_if minx (xMin box); store_if miny (yMin box); store_if minz (zMin box);
         store_if maxx (xMax box); store_if maxy (yMax box); store_if maxz (zMax box)]
    | Raised (std_exception what) =>
      fail ("bounds exception: " +:+ what) out_error err_len s cells
    | Raised e => mk_result (Propagates e) s out_error cells
    end
  end.

(** The body of the [try] block of [occt_boolean]. *)
Definition boolean_try (W : World) (Ta Ua : Shape) (op : option string) (tolerance : float)
    (out_error : option (list ascii)) (err_len : Z) (s : state) : kres (result Z unit) :=
  let str := default "" op in
  kcall result ←
    (if String.eqb str "union" || String.eqb str "fuse" then
       kcall opf ← BRepAlgoAPI_Fuse W Ta Ua tolerance;
       match opf with
       | None => Done (inl (fail "fuse failed" out_error err_len s tt))
       | Some shape => Done (inr shape)
       end
     else if String.eqb str "cut" then
       kcall opc ← BRepAlgoAPI_Cut W Ta Ua tolerance;
       match opc with
       | None => Done (inl (fail "cut failed" out_error err_len s tt))
       | Some shape => Done (inr shape)
       end
     else if String.eqb str "common" || String.eqb str "intersect" then
       kcall opc ← BRepAlgoAPI_Common W Ta Ua tolerance;
       match opc with
       | None => Done (inl (fail "common failed" out_error err_len s tt))
       | Some shape => Done (inr shape)
       end
     else Done (inl (fail "unknown boolean operation" out_error err_len s tt)));
  match result with
  | inl returned => Done returned
  | inr shape =>
    let '(h, s1) := register shape s in
    Done (mk_result (Returns h) s1 out_error tt)
  end.

Definition occt_boolean (W : World) (target tool : Z) (op : option string) (tolerance : float)
    (out_error : option (list ascii)) (err_len : Z) (s : state) : result Z unit :=
  match shape_registry s !! target, shape_registry s !! tool with
  | Some Ta, Some Ua =>
    match boolean_try W Ta Ua op tolerance out_error err_len s with
    | Done r => r
    | Raised (std_exception what) =>
      fail ("boolean exception: " +:+ what) out_error err_len s tt
    | Raised e => mk_result (Propagates e) s out_error tt
    end
  | _, _ => fail "target or tool handle not found" out_error err_len s tt
  end.

Definition occt_fillet (target : Z) (edge_ids : option (list Z)) (edge_count : Z)
    (radius tolerance : float)
    (out_error : option (list ascii)) (err_len : Z) (s : state) : result Z unit :=
  match shape_registry s !! target with
  | None => fail "target handle not found" out_error err_len s tt
  | Some copyShape =>
    let '(h, s1) := register copyShape s in
    mk_result (Returns h) s1 out_error tt
  end.

Definition occt_release_handle (handle : Z)
    (out_error : option (list ascii)) (err_len : Z) (s : state) : result Z unit :=
  match shape_registry s !! handle with
  | None => fail "handle not found" out_error err_len s tt
  | Some _ =>
    mk_result (Returns 1) (set_registry s (delete handle (shape_registry s))) out_error tt
  end.

(** *** The text export *)

(** The [double] nearest to 0.1. *)
Definition double_0_1 : float := 0x1.999999999999ap-4%float.


(** [v[i]] on a [std::vector] with an [int] index: no bounds check, so a read
    outside the vector is undefined ([None]). *)
Definition vector_at {A : Type} (v : list A) (i : Z) : option A :=
  if i <? 0 then None else v !! Z.to_nat i.

(** The loop over the nodes [ni .. nNodes] of one face: each node is
    transformed and appended, and [localToGlobal[ni]] is its position in the
    global list, counted from 1. *)
Fixpoint mesh_nodes (W : World) (tr : Trsf) (nodes : list gp_Pnt) (ni : nat)
    (global_vertices : list gp_Pnt) (localToGlobal : list Z) : list gp_Pnt * list Z :=
  match nodes with
  | [] => (global_vertices, localToGlobal)
  | p :: rest =>
    let global_vertices' := global_vertices ++ [Transform W tr p] in
    mesh_nodes W tr rest (S ni) global_vertices'
      (<[ni := int_of_size_t (Z.of_nat (length global_vertices'))]> localToGlobal)
  end.

(** The loop over the triangles of one face. *)
Fixpoint mesh_triangles (triangles : list (Z * Z * Z)) (localToGlobal : list Z)
    (global_faces : list (Z * Z * Z)) : option (list (Z * Z * Z)) :=
  match triangles with
  | [] => Some global_faces
  | (n1, n2, n3) :: rest =>
    g1 ← vector_at localToGlobal n1;
    g2 ← vector_at localToGlobal n2;
    g3 ← vector_at localToGlobal n3;
    if (g1 <=? 0) || (g2 <=? 0) || (g3 <=? 0)
    then mesh_triangles rest localToGlobal global_faces
    else mesh_triangles rest localToGlobal (global_faces ++ [(g1, g2, g3)])
  end.

(** The loop of the face explorer. *)
Fixpoint mesh_faces (W : World) (faces : list Face)
    (global_vertices : list gp_Pnt) (global_faces : list (Z * Z * Z))
  : option (list gp_Pnt * list (Z * Z * Z)) :=
  match faces with
  | [] => Some (global_vertices, global_faces)
  | face :: rest =>
    match BRep_Tool_Triangulation W face with
    | None => mesh_faces W rest global_vertices global_faces
    | Some (tri, tr) =>
      let nNodes := NbNodes tri in
      let localToGlobal := replicate (Z.to_nat (nNodes + 1)) (-1) in
      let '(global_vertices', localToGlobal') :=
        mesh_nodes W tr (Nodes tri) 1 global_vertices localToGlobal in
      global_faces' ← mesh_triangles (Triangles tri) localToGlobal' global_faces;
      mesh_faces W rest global_vertices' global_faces'
    end
  end.

Definition endl : string := String (ascii_of_nat 10) "".

Definition obj_header : string := "# qutlas occt obj" +:+ endl.

Definition obj_vertex (W : World) (p : gp_Pnt) : string :=
  "v " +:+ show_double W (X p) +:+ " " +:+ show_double W (Y p) +:+ " "
       +:+ show_double W (Z_ p) +:+ endl.

Definition obj_face (f : Z * Z * Z) : string :=
  let '(f0, f1, f2) := f in
  "f " +:+ to_string f0 +:+ " " +:+ to_string f1 +:+ " " +:+ to_string f2 +:+ endl.

(** What the stream [obj] holds after the two writing loops. *)
Definition obj_text (W : World) (global_vertices : list gp_Pnt)
    (global_faces : list (Z * Z * Z)) : string :=
  let obj := obj_header in
  let obj := fold_left (fun obj p => obj +:+ obj_vertex W p) global_vertices obj in
  fold_left (fun obj f => obj +:+ obj_face f) global_faces obj.

(** The body of the [try] block of [occt_generate_mesh_obj].  Line 312 of the
    source is not C++ (it has a [:=]); the embedding follows the constructor
    call of line 316, which the comment between them gives as the one meant. *)
Definition mesh_try (W : World) (shape : Shape) (deflection : float) (linear_deflection : Z)
    (out_error : option (list ascii)) (err_len : Z) (s : state)
  : kres (result Z (option Z * option Z) + unit) :=
  let defl := if PrimFloat.ltb 0 deflection then deflection else double_0_1 in
  kcall meshed ← BRepMesh_IncrementalMesh W shape defl linear_deflection;
  match mesh_faces W (TopExp_faces W meshed) [] [] with
  | None => Done (inr tt)
  | Some (global_vertices, global_faces) =>
    let text := obj_text W global_vertices global_faces in
    Done (inl (emit_buffer W (list_byte_of_string text) (Z.of_nat (String.length text))
                 out_error err_len s))
  end.

Definition occt_generate_mesh_obj (W : World) (handle : Z)
    (deflection : float) (linear_deflection : Z) (out_buf out_len : option Z)
    (out_error : option (list ascii)) (err_len : Z) (s : state)
  : result Z (option Z * option Z) :=
  match out_buf, out_len with
  | Some _, Some _ =>
    match shape_registry s !! handle with
    | None => fail "handle not found" out_error err_len s (out_buf, out_len)
    | Some shape =>
      match mesh_try W shape deflection linear_deflection out_error err_len s with
      | Done (inl r) => r
      | Done (inr _) => mk_result Undefined s out_error (out_buf, out_len)
      | Raised (std_exception what) =>
        fail ("mesh exception: " +:+ what) out_error err_len s (out_buf, out_len)
      | Raised e => mk_result (Propagates e) s out_error (out_buf, out_len)
      end
    end
  | _, _ => fail "invalid output pointers" out_error err_len s (out_buf, out_len)
  end.

(** [if (buf) free(buf);]  Freeing what [malloc] did not return, or freeing
    twice, is undefined. *)
Definition occt_free_buffer (buf : Z) (s : state) : completion unit * state :=
  if buf =? 0 then (Returns tt, s)
  else
    match heap s !! buf with
    | Some _ => (Returns tt, mk_state (shape_registry s) (next_handle s) (delete buf (heap s)))
    | None => (Undefined, s)
    end.


(** The operation names that [occt_boolean] knows. *)
Definition boolean_names : list string :=
  ["union"; "fuse"; "cut"; "common"; "intersect"].

(** ** Calls and traces *)

(** The fallible operations: those that take [out_error] and [err_len]. *)
Inductive call :=
| Init (resource_path : option string)
| LoadFromMemory (filename : option string) (data : option (list byte)) (len : Z)
| ExportStep (handle : Z) (out_buf out_len : option Z)
| GetBounds (handle : Z) (minx miny minz maxx maxy maxz : option float)
| Boolean (target tool : Z) (op : option string) (tolerance : float)
| Fillet (target : Z) (edge_ids : option (list Z)) (edge_count : Z) (radius tolerance : float)
| GenerateMeshObj (handle : Z) (deflection : float) (linear_deflection : Z)
                  (out_buf out_len : option Z)
| ReleaseHandle (handle : Z).

(** The cells of the caller, other than the error buffer, after a call. *)
Inductive cells :=
| NoCells
| BufferCells (out_buf out_len : option Z)
| BoundsCells (bounds : list (option float)).

Definition with_cells {R O : Type} (f : O -> cells) (r : result R O) : result R cells :=
  mk_result (ret r) (post r) (err r) (f (outs r)).

Definition exec (W : World) (c : call)
    (out_error : option (list ascii)) (err_len : Z) (s : state) : result Z cells :=
  match c with
  | Init resource_path =>
    with_cells (fun _ => NoCells) (occt_init resource_path out_error err_len s)
  | LoadFromMemory filename data len =>
    with_cells (fun _ => NoCells) (occt_load_from_memory W filename data len out_error err_len s)
  | ExportStep handle out_buf out_len =>
    with_cells (fun o => BufferCells o.1 o.2)
      (occt_export_step W handle out_buf out_len out_error err_len s)
  | GetBounds handle minx miny minz maxx maxy maxz =>
    with_cells BoundsCells
      (occt_get_bounds W handle minx miny minz maxx maxy maxz out_error err_len s)
  | Boolean target tool op tolerance =>
    with_cells (fun _ => NoCells) (occt_boolean W target tool op tolerance out_error err_len s)
  | Fillet target edge_ids edge_count radius tolerance =>
    with_cells (fun _ => NoCells)
      (occt_fillet target edge_ids edge_count radius tolerance out_error err_len s)
  | GenerateMeshObj handle deflection linear_deflection out_buf out_len =>
    with_cells (fun o => BufferCells o.1 o.2)
      (occt_generate_mesh_obj W handle deflection linear_deflection out_buf out_len
         out_error err_len s)
  | ReleaseHandle handle =>
    with_cells (fun _ => NoCells) (occt_release_handle handle out_error err_len s)
  end.

(** The operations that return a handle. *)
Definition returns_handle (c : call) : bool :=
  match c with
  | LoadFromMemory _ _ _ | Boolean _ _ _ _ | Fillet _ _ _ _ _ => true
  | _ => false
  end.

(** The handle a call hands to its caller: by the header, a handle-returning
    operation returns "handle (>0) or 0 on error". *)
Definition issued {O : Type} (c : call) (r : result Z O) : option Z :=
  if returns_handle c then
    match ret r with
    | Returns h => if h =? 0 then None else Some h
    | _ => None
    end
  else None.

(** One step of a client: a call, in the world of that moment, or a free. *)
Inductive event :=
| Call (W : World) (c : call) (out_error : option (list ascii)) (err_len : Z)
| FreeBuffer (buf : Z).

(** The state after a sequence of events and the handles issued on the way,
    oldest first.  Nothing is said of what follows undefined behaviour: the
    run ends there. *)
Fixpoint run (evs : list event) (s : state) : state * list Z :=
  match evs with
  | [] => (s, [])
  | Call W c out_error err_len :: rest =>
    let r := exec W c out_error err_len s in
    match ret r with
    | Undefined => (post r, [])
    | _ =>
      let '(s', hs) := run rest (post r) in
      (s', match issued c r with Some h => h :: hs | None => hs end)
    end
  | FreeBuffer buf :: rest =>
    match occt_free_buffer buf s with
    | (Returns _, s1) => run rest s1
    | (_, s1) => (s1, [])
    end
  end.

(** The counter is ahead of every key of the registry, and has not wrapped. *)
Definition counter_ahead (s : state) : Prop :=
  1 <= next_handle s < 2 ^ 64 /\
  forall k, is_Some (shape_registry s !! k) -> 1 <= k < next_handle s.

(** What a failed export leaves behind: the state as it was, and the two
    cells either as they were or, after a failed [malloc], holding the null
    pointer and the length that was asked for. *)
Definition failure_frame (W : World) (out_buf out_len : option Z)
    (out_error : option (list ascii)) (err_len : Z) (s : state)
    (r : result Z (option Z * option Z)) : Prop :=
  post r = s /\
  (outs r = (out_buf, out_len) \/
   exists len, malloc W (heap s) len = 0 /\ outs r = (Some 0, Some len) /\
               err r = write_error "malloc failed" out_error err_len).

(** ** What a call can do

    Two runs of one call that differ in the error slot only, [r] with the
    slot [(e, n)] and [r'] with [(e', n')], end in one of four ways: a
    diagnostic and 0; a shape registered under a new handle, which is
    returned; 1, with the counter as it was and no new key in the registry;
    or an abrupt end in the unchanged state.  The state [s0] in which the
    call decides is [s], or [s] after [write_temp_file] has taken an
    identifier from the counter. *)
Inductive outcome (s : state) (c : call)
    (e : option (list ascii)) (n : Z) (e' : option (list ascii)) (n' : Z)
  : result Z cells -> result Z cells -> Prop :=
| outcome_fail (s0 : state) (msg : string) (o : cells) :
    s0 = s \/ (returns_handle c = true /\ s0 = (fetch_add s).2) ->
    outcome s c e n e' n'
      (mk_result (Returns 0) s0 (write_error msg e n) o)
      (mk_result (Returns 0) s0 (write_error msg e' n') o)
| outcome_registered (s0 : state) (shape : Shape) :
    s0 = s \/ s0 = (fetch_add s).2 ->
    returns_handle c = true ->
    outcome s c e n e' n'
      (mk_result (Returns (register shape s0).1) (register shape s0).2 e NoCells)
      (mk_result (Returns (register shape s0).1) (register shape s0).2 e' NoCells)
| outcome_done (s1 : state) (o : cells) :
    returns_handle c = false ->
    next_handle s1 = next_handle s ->
    (forall k, is_Some (shape_registry s1 !! k) -> is_Some (shape_registry s !! k)) ->
    outcome s c e n e' n' (mk_result (Returns 1) s1 e o) (mk_result (Returns 1) s1 e' o)
| outcome_abrupt (k : completion Z) (o : cells) :
    (forall v, k <> Returns v) ->
    outcome s c e n e' n' (mk_result k s e o) (mk_result k s e' o).

(** ** The text export, as the specification words it

    The vertex list is the concatenation of the per-face vertex lists, with
    no merging across faces; there is one line per vertex and one line per
    triangle; a triangle names its vertices by their position in the vertex
    list, counted from 1. *)

(** The vertices of one face: its nodes, moved by the location of the face. *)
Definition face_vertices (W : World) (face : Face) : list gp_Pnt :=
  match BRep_Tool_Triangulation W face with
  | Some (tri, tr) => map (Transform W tr) (Nodes tri)
  | None => []
  end.

Definition export_vertices (W : World) (faces : list Face) : list gp_Pnt :=
  concat (map (face_vertices W) faces).

Definition shift (offset : Z) (t : Z * Z * Z) : Z * Z * Z :=
  let '(n1, n2, n3) := t in (offset + n1, offset + n2, offset + n3).

Definition face_triangles (W : World) (face : Face) : list (Z * Z * Z) :=
  match BRep_Tool_Triangulation W face with
  | Some (tri, _) => Triangles tri
  | None => []
  end.

(** The triangles of every face, each node number moved up by the number of
    vertices of the faces before. *)
Fixpoint export_triangles (W : World) (faces : list Face) (offset : Z) : list (Z * Z * Z) :=
  match faces with
  | [] => []
  | face :: rest =>
    map (shift offset) (face_triangles W face)
      ++ export_triangles W rest (offset + Z.of_nat (length (face_vertices W face)))
  end.

Definition export_text (W : World) (vertices : list gp_Pnt) (triangles : list (Z * Z * Z))
  : string :=
  obj_header +:+ fold_right String.append "" (map (obj_vertex W) vertices)
             +:+ fold_right String.append "" (map obj_face triangles).

(** The number of line ends in a text. *)
Fixpoint count_endl (str : string) : nat :=
  match str with
  | EmptyString => 0
  | String ch rest =>
    ((if Ascii.eqb ch (ascii_of_nat 10) then 1 else 0) + count_endl rest)%nat
  end.

(** A triangle whose three numbers lie in [lo + 1 .. hi]. *)
Definition triangle_within (lo hi : Z) (t : Z * Z * Z) : Prop :=
  let '(n1, n2, n3) := t in lo < n1 <= hi /\ lo < n2 <= hi /\ lo < n3 <= hi.

(** A face whose triangulation, if it has one, has only triangles between
    nodes [1 .. NbNodes]: what the kernel delivers. *)
Definition face_in_range (W : World) (face : Face) : Prop :=
  match BRep_Tool_Triangulation W face with
  | Some (tri, _) => Forall (triangle_within 0 (NbNodes tri)) (Triangles tri)
  | None => True
  end.

(** ** Further notions for the properties of runs *)

(** The event is a release of the handle [k]. *)
Definition releases (k : Z) (ev : event) : bool :=
  match ev with
  | Call _ (ReleaseHandle h) _ _ => h =? k
  | _ => false
  end.

(** The six cells of [occt_get_bounds] after a box has been stored. *)
Definition store_box (box : Bnd) (minx miny minz maxx maxy maxz : option float)
  : list (option float) :=
  [store_if minx (xMin box); store_if miny (yMin box); store_if minz (zMin box);
   store_if maxx (xMax box); store_if maxy (yMax box); store_if maxz (zMax box)].

(** The algorithm of the kernel that an operation name selects in
    [occt_boolean], with the diagnostic for an algorithm that is not done. *)
Definition boolean_dispatch (W : World) (name : string)
  : option ((Shape -> Shape -> float -> kres (option Shape)) * string) :=
  if String.eqb name "union" || String.eqb name "fuse"
  then Some (BRepAlgoAPI_Fuse W, "fuse failed")
  else if String.eqb name "cut"
  then Some (BRepAlgoAPI_Cut W, "cut failed")
  else if String.eqb name "common" || String.eqb name "intersect"
  then Some (BRepAlgoAPI_Common W, "common failed")
  else None.

(** A world that differs from [W] in its cut algorithm only. *)
Definition with_cut (W : World) (cut : Shape -> Shape -> float -> kres (option Shape))
  : World :=
  mk_World (ofstream_open W) (ifstream_open W) (ifstream_tellg W) (vector_char W)
    (ifstream_read W) (malloc W) (show_double W)
    (STEP_ReadFile W) (STEP_TransferRoots W) (STEP_OneShape W)
    (IGES_ReadFile W) (IGES_TransferRoots W) (IGES_OneShape W) (IsNull W)
    (STEP_Transfer W) (STEP_Write W) (Bnd_Box_Get W)
    (BRepAlgoAPI_Fuse W) cut (BRepAlgoAPI_Common W)
    (BRepMesh_IncrementalMesh W) (TopExp_faces W) (BRep_Tool_Triangulation W)
    (Transform W).

(** A triangle that names the node 0, which no triangulation has. *)
Definition names_node_0 (t : Z * Z * Z) : bool :=
  let '(n1, n2, n3) := t in (n1 =? 0) || (n2 =? 0) || (n3 =? 0).

(** The triangles of every face that do not name the node 0, each node
    number moved up by the number of vertices of the faces before. *)
Fixpoint export_triangles_kept (W : World) (faces : list Face) (offset : Z)
  : list (Z * Z * Z) :=
  match faces with
  | [] => []
  | face :: rest =>
    map (shift offset) (List.filter (fun t => negb (names_node_0 t)) (face_triangles W face))
      ++ export_triangles_kept W rest (offset + Z.of_nat (length (face_vertices W face)))
  end.

(** A world that differs from [W] in the triangulation of the faces only. *)
Definition with_triangulation (W : World)
    (triangulation : Face -> option (Poly_Triangulation * Trsf)) : World :=
  mk_World (ofstream_open W) (ifstream_open W) (ifstream_tellg W) (vector_char W)
    (ifstream_read W) (malloc W) (show_double W)
    (STEP_ReadFile W) (STEP_TransferRoots W) (STEP_OneShape W)
    (IGES_ReadFile W) (IGES_TransferRoots W) (IGES_OneShape W) (IsNull W)
    (STEP_Transfer W) (STEP_Write W) (Bnd_Box_Get W)
    (BRepAlgoAPI_Fuse W) (BRepAlgoAPI_Cut W) (BRepAlgoAPI_Common W)
    (BRepMesh_IncrementalMesh W) (TopExp_faces W) triangulation
    (Transform W).

(** A world that differs from [W] in the STEP reader only. *)
Definition with_step_reader (W : World)
    (reader : string -> list byte -> kres IFSelect_ReturnStatus) : World :=
  mk_World (ofstream_open W) (ifstream_open W) (ifstream_tellg W) (vector_char W)
    (ifstream_read W) (malloc W) (show_double W)
    reader (STEP_TransferRoots W) (STEP_OneShape W)
    (IGES_ReadFile W) (IGES_TransferRoots W) (IGES_OneShape W) (IsNull W)
    (STEP_Transfer W) (STEP_Write W) (Bnd_Box_Get W)
    (BRepAlgoAPI_Fuse W) (BRepAlgoAPI_Cut W) (BRepAlgoAPI_Common W)
    (BRepMesh_IncrementalMesh W) (TopExp_faces W) (BRep_Tool_Triangulation W)
    (Transform W).

(** ** The diagnostics of each operation

    The string literals that the operation passes to [write_error], and the
    prefix it puts before [what()] of a [std::exception] it has caught. *)
Definition diagnostics (c : call) : list string :=
  match c with
  | Init _ => []
  | LoadFromMemory _ _ _ =>
    [ "empty input data"; "failed to create temp file";
      "STEP transfer failed"; "STEP produced empty shape";
      "IGES transfer failed"; "IGES produced empty shape";
      "failed to read as STEP or IGES"; "unknown exception during load" ]
  | ExportStep _ _ _ =>
    [ "invalid output pointers"; "handle not found";
      "STEP transfer in writer failed"; "STEP write failed";
      "cannot open tmp step for reading"; "failed to read tmp step file";
      "malloc failed" ]
  | GetBounds _ _ _ _ _ _ _ => [ "handle not found" ]
  | Boolean _ _ _ _ =>
    [ "target or tool handle not found"; "fuse failed"; "cut failed";
      "common failed"; "unknown boolean operation" ]
  | Fillet _ _ _ _ _ => [ "target handle not found" ]
  | GenerateMeshObj _ _ _ _ _ =>
    [ "invalid output pointers"; "handle not found"; "malloc failed" ]
  | ReleaseHandle _ => [ "handle not found" ]
  end.

Definition exception_prefix (c : call) : option string :=
  match c with
  | LoadFromMemory _ _ _ | ExportStep _ _ _ => Some "exception: "
  | GetBounds _ _ _ _ _ _ _ => Some "bounds exception: "
  | Boolean _ _ _ _ => Some "boolean exception: "
  | GenerateMeshObj _ _ _ _ _ => Some "mesh exception: "
  | Init _ | Fillet _ _ _ _ _ | ReleaseHandle _ => None
  end.

Definition diagnostic (c : call) (msg : string) : Prop :=
  msg ∈ diagnostics c \/
  exists prefix what : string, exception_prefix c = Some prefix /\ msg = prefix +:+ what.

End Wrapper.

(** * The value facade of the scripting host (occt_bindings.cpp)

    The functions that embind exports take and return geometry values
    instead of handles.  They have no [try] block: whatever the kernel
    throws leaves the function.  Objects of the host (the results of
    [getMeshData], [getBoundingBox] and [analyzeManufacturability]) are
    records.  [addHole] reads its position from a value of the host and is
    left out. *)
Module Bindings.

Section Facade.

Context {Shape Face Trsf Edge : Type}.

(** [class GeometryWrapper]. *)
Record GeometryWrapper := mk_Geometry { shape : Shape }.

(** The collaborators this file uses beyond those of the handle facade:
    the default-constructed [TopoDS_Shape], the primitives, the boolean
    algorithms without fuzzy value, the fillet and prism builders ([None]
    when not IsDone), the mesher with its default parameters, and the
    writers. *)
Record Modeler := mk_Modeler {
  TopoDS_Shape_default : Shape;
  BRepPrimAPI_MakeBox : float -> float -> float -> kres (option Shape);
  BRepPrimAPI_MakeCylinder : float -> float -> kres (option Shape);
  BRepPrimAPI_MakeSphere : float -> kres (option Shape);
  BRepPrimAPI_MakeCone : float -> float -> float -> kres (option Shape);
  BRepPrimAPI_MakeTorus : float -> float -> kres (option Shape);
  Fuse : Shape -> Shape -> kres (option Shape);
  Cut : Shape -> Shape -> kres (option Shape);
  Common : Shape -> Shape -> kres (option Shape);
  TopExp_edges : Shape -> list Edge;
  BRepFilletAPI_MakeFillet : Shape -> list (float * Edge) -> kres (option Shape);
  BRepPrimAPI_MakePrism : Shape -> float -> float -> float -> kres (option Shape);
  IncrementalMesh : Shape -> float -> kres Shape;
  Transforms : Trsf -> gp_Pnt -> gp_Pnt;
  IGES_AddShape_Write : Shape -> string -> kres bool;
  StlAPI_Write : Shape -> string -> kres bool
}.

Definition isNull (W : @World Shape Face Trsf) (g : GeometryWrapper) : bool :=
  IsNull W (shape g).

(** [GeometryWrapper()] *)
Definition null_geometry (M : Modeler) : GeometryWrapper :=
  mk_Geometry (TopoDS_Shape_default M).

(** [x.Build(); if (!x.IsDone()) return GeometryWrapper(); return
    GeometryWrapper(x.Shape());] *)
Definition built (M : Modeler) (x : kres (option Shape)) : completion GeometryWrapper :=
  match x with
  | Done (Some s) => Returns (mk_Geometry s)
  | Done None => Returns (null_geometry M)
  | Raised e => Propagates e
  end.

Definition createBox (M : Modeler) (width height depth : float) :=
  built M (BRepPrimAPI_MakeBox M width height depth).

Definition createCylinder (M : Modeler) (radius height : float) :=
  built M (BRepPrimAPI_MakeCylinder M radius height).

Definition createSphere (M : Modeler) (radius : float) :=
  built M (BRepPrimAPI_MakeSphere M radius).

Definition createCone (M : Modeler) (radius height : float) :=
  built M (BRepPrimAPI_MakeCone M radius 0 height).

Definition createTorus (M : Modeler) (majorRadius minorRadius : float) :=
  built M (BRepPrimAPI_MakeTorus M majorRadius minorRadius).

Definition unionShapes (W : @World Shape Face Trsf) (M : Modeler) (shape1 shape2 : GeometryWrapper) :=
  if isNull W shape1 || isNull W shape2 then Returns (null_geometry M)
  else built M (Fuse M (shape shape1) (shape shape2)).

Definition cutShapes (W : @World Shape Face Trsf) (M : Modeler) (shape1 shape2 : GeometryWrapper) :=
  if isNull W shape1 || isNull W shape2 then Returns (null_geometry M)
  else built M (Cut M (shape shape1) (shape shape2)).

Definition intersectShapes (W : @World Shape Face Trsf) (M : Modeler) (shape1 shape2 : GeometryWrapper) :=
  if isNull W shape1 || isNull W shape2 then Returns (null_geometry M)
  else built M (Common M (shape shape1) (shape shape2)).

(** The loop of [addFillet] over the edges the explorer still has: the edge
    that is reached when [currentEdgeIndex] equals [edgeIndex], if any.  The
    increment cannot overflow, since [currentEdgeIndex < edgeIndex] there. *)
Fixpoint fillet_edge (edges : list Edge) (currentEdgeIndex edgeIndex : Z) : option Edge :=
  match edges with
  | [] => None
  | edge :: rest =>
    if currentEdgeIndex <=? edgeIndex then
      if currentEdgeIndex =? edgeIndex then Some edge
      else fillet_edge rest (currentEdgeIndex + 1) edgeIndex
    else None
  end.

Definition addFillet (W : @World Shape Face Trsf) (M : Modeler) (geometry : GeometryWrapper)
    (edgeIndex : Z) (radius : float) : completion GeometryWrapper :=
  if isNull W geometry then Returns (null_geometry M)
  else
    let added :=
      match fillet_edge (TopExp_edges M (shape geometry)) 0 edgeIndex with
      | Some edge => [(radius, edge)]
      | None => []
      end in
    built M (BRepFilletAPI_MakeFillet M (shape geometry) added).

Definition addChamfer (W : @World Shape Face Trsf) (M : Modeler) (geometry : GeometryWrapper)
    (edgeIndex : Z) (distance : float) : completion GeometryWrapper :=
  if isNull W geometry then Returns (null_geometry M)
  else addFillet W M geometry edgeIndex (PrimFloat.mul distance 0x1p-1).

Definition extrude (W : @World Shape Face Trsf) (M : Modeler) (profile : GeometryWrapper) (distance : float)
  : completion GeometryWrapper :=
  if isNull W profile then Returns (null_geometry M)
  else built M (BRepPrimAPI_MakePrism M (shape profile) 0 0 distance).

(** [axis] is a value of the host, which the function does not read. *)
Definition revolve {Val : Type} (W : @World Shape Face Trsf) (M : Modeler) (profile : GeometryWrapper)
    (axis : Val) (angle : float) : completion GeometryWrapper :=
  if isNull W profile then Returns (null_geometry M)
  else built M (BRepPrimAPI_MakeCylinder M 25 50).

(** [int] arithmetic, which wraps on the wasm target. *)
Definition int_wrap (z : Z) : Z := (z + 2 ^ 31) mod 2 ^ 32 - 2 ^ 31.

Record MeshData := mk_MeshData {
  vertices : list float;
  indices : list Z;
  normals : list float
}.

(** The node loop of [getMeshData]: three coordinates per node. *)
Fixpoint mesh_data_nodes (M : Modeler) (tr : Trsf) (nodes : list gp_Pnt)
    (vertices : list float) : list float :=
  match nodes with
  | [] => vertices
  | p :: rest =>
    let p' := Transforms M tr p in
    mesh_data_nodes M tr rest (vertices ++ [X p'; Y p'; Z_ p'])
  end.

(** The triangle loop of [getMeshData]: [vertexOffset + n - 1] for each of
    the three nodes. *)
Fixpoint mesh_data_triangles (triangles : list (Z * Z * Z)) (vertexOffset : Z)
    (indices : list Z) : list Z :=
  match triangles with
  | [] => indices
  | (n1, n2, n3) :: rest =>
    mesh_data_triangles rest vertexOffset
      (indices ++ [int_wrap (int_wrap (vertexOffset + n1) - 1);
                   int_wrap (int_wrap (vertexOffset + n2) - 1);
                   int_wrap (int_wrap (vertexOffset + n3) - 1)])
  end.

Fixpoint mesh_data_faces (W : @World Shape Face Trsf) (M : Modeler) (faces : list Face)
    (vertexOffset : Z) (vertices : list float) (indices : list Z)
  : list float * list Z :=
  match faces with
  | [] => (vertices, indices)
  | face :: rest =>
    match BRep_Tool_Triangulation W face with
    | Some (tri, tr) =>
      mesh_data_faces W M rest (int_wrap (vertexOffset + NbNodes tri))
        (mesh_data_nodes M tr (Nodes tri) vertices)
        (mesh_data_triangles (Triangles tri) vertexOffset indices)
    | None => mesh_data_faces W M rest vertexOffset vertices indices
    end
  end.

(** The [double] nearest to 0.01. *)
Definition double_0_01 : float := 0x1.47ae147ae147bp-7%float.

Definition getMeshData (W : @World Shape Face Trsf) (M : Modeler) (geometry : GeometryWrapper)
  : completion MeshData :=
  if isNull W geometry then Returns (mk_MeshData [] [] [])
  else
    match IncrementalMesh M (shape geometry) double_0_01 with
    | Raised e => Propagates e
    | Done meshed =>
      let '(vertices, indices) :=
        mesh_data_faces W M (TopExp_faces W meshed) 0 [] [] in
      Returns (mk_MeshData vertices indices [])
    end.

Record BoundingBox := mk_BoundingBox {
  x : float; y : float; z : float;
  width : float; height : float; depth : float
}.

Definition getBoundingBox (W : @World Shape Face Trsf) (geometry : GeometryWrapper)
  : completion BoundingBox :=
  if isNull W geometry then Returns (mk_BoundingBox 0 0 0 0 0 0)
  else
    match Bnd_Box_Get W (shape geometry) with
    | Raised e => Propagates e
    | Done box =>
      Returns (mk_BoundingBox (xMin box) (yMin box) (zMin box)
                 (PrimFloat.sub (xMax box) (xMin box))
                 (PrimFloat.sub (yMax box) (yMin box))
                 (PrimFloat.sub (zMax box) (zMin box)))
    end.

Record Scores := mk_Scores {
  machiningScore : float; moldingScore : float; printingScore : float
}.

(** The report of [analyzeManufacturability]: no warnings, and the scores. *)
Definition analyzeManufacturability (W : @World Shape Face Trsf) (geometry : GeometryWrapper)
  : list string * Scores :=
  ([], if negb (isNull W geometry) then mk_Scores 85 70 90 else mk_Scores 0 0 0).

Definition exportToSTEP (W : @World Shape Face Trsf) (geometry : GeometryWrapper) (filename : string)
  : completion bool :=
  if isNull W geometry then Returns false
  else
    match STEP_Transfer W (shape geometry) with
    | Raised e => Propagates e
    | Done status =>
      if negb (is_RetDone status) then Returns false
      else
        match STEP_Write W (shape geometry) filename with
        | Raised e => Propagates e
        | Done written => Returns (is_RetDone written)
        end
    end.

Definition written (x : kres bool) : completion bool :=
  match x with Done b => Returns b | Raised e => Propagates e end.

Definition exportToIGES (W : @World Shape Face Trsf) (M : Modeler) (geometry : GeometryWrapper)
    (filename : string) : completion bool :=
  if isNull W geometry then Returns false
  else written (IGES_AddShape_Write M (shape geometry) filename).

Definition exportToSTL (W : @World Shape Face Trsf) (M : Modeler) (geometry : GeometryWrapper)
    (filename : string) : completion bool :=
  if isNull W geometry then Returns false
  else written (StlAPI_Write M (shape geometry) filename).

(** The coordinates of a list of points, as [getMeshData] lays them out. *)
Definition coordinates (points : list gp_Pnt) : list float :=
  concat (map (fun p => [X p; Y p; Z_ p]) points).

(** The numbers of a list of triangles, each lowered by one. *)
Definition zero_based (triangles : list (Z * Z * Z)) : list Z :=
  concat (map (fun t : Z * Z * Z => let '(g1, g2, g3) := t in [g1 - 1; g2 - 1; g3 - 1])
            triangles).

End Facade.

End Bindings.

(** ** A small world for examples

    Shapes and faces are numbers: the shape [n] has the faces [1 .. n].  Face
    1 is the unit square and the other faces are the square to its right;
    each is four nodes cut into two triangles, and faces 1 and 2 share the
    edge from (1,0,0) to (1,1,0).  Files are read as STEP when they are not
    empty.  [malloc] returns the address it is given (0 to fail). *)
Module Fixture.

Definition square (left right : float) : Poly_Triangulation :=
  mk_Tri [mk_Pnt left 0 0; mk_Pnt right 0 0; mk_Pnt right 1 0; mk_Pnt left 1 0]
         [(1, 2, 3); (1, 3, 4)].

Definition show (d : float) : string :=
  if PrimFloat.eqb d 0 then "0" else if PrimFloat.eqb d 1 then "1" else "2".

Definition step_bytes : list byte := list_byte_of_string "ISO-10303-21;".

Definition world (address : Z) : @World Z Z unit :=
  {| ofstream_open := fun _ => true;
     ifstream_open := fun _ => true;
     ifstream_tellg := fun _ => Z.of_nat (length step_bytes);
     vector_char := fun _ => Done tt;
     ifstream_read := fun _ _ => Some step_bytes;
     malloc := fun _ _ => address;
     show_double := show;
     STEP_ReadFile := fun _ file =>
       Done (match file with [] => IFSelect_RetError | _ => IFSelect_RetDone end);
     STEP_TransferRoots := fun _ _ => Done 1;
     STEP_OneShape := fun _ file => Done (Z.of_nat (length file));
     IGES_ReadFile := fun _ _ => Done IFSelect_RetError;
     IGES_TransferRoots := fun _ _ => Done 0;
     IGES_OneShape := fun _ _ => Done 0;
     IsNull := fun shape => shape =? 0;
     STEP_Transfer := fun _ => Done IFSelect_RetDone;
     STEP_Write := fun _ _ => Done IFSelect_RetDone;
     Bnd_Box_Get := fun _ => Done (mk_Bnd 0 0 0 1 1 1);
     BRepAlgoAPI_Fuse := fun a b _ => Done (Some (a + b));
     BRepAlgoAPI_Cut := fun a b _ => Done (Some a);
     BRepAlgoAPI_Common := fun a b _ => Done (Some (Z.min a b));
     BRepMesh_IncrementalMesh := fun shape _ _ => Done shape;
     TopExp_faces := fun shape => map Z.of_nat (seq 1 (Z.to_nat shape));
     BRep_Tool_Triangulation := fun face =>
       Some (if face =? 1 then square 0 1 else square 1 2, tt);
     Transform := fun _ p => p |}.

(** A state with the shapes 2 and 3 under the handles 1 and 2. *)
Definition two_shapes : @state Z := mk_state (<[1 := 2]> (<[2 := 3]> ∅)) 3 ∅.

(** An error buffer of 48 characters. *)
Definition buffer : list ascii := replicate 48 "#"%char.

(** A boolean operation under an unknown name, with the unknown handle 7. *)
Definition bogus_unregistered : result Z unit :=
  occt_boolean (world 4096) 1 7 (Some "bogus") 0 (Some buffer) 48 two_shapes.

(** A mesh export of handle 1 in a world where [malloc] fails; the cells of
    the caller hold 7 and 9 before. *)
Definition mesh_without_memory : result Z (option Z * option Z) :=
  occt_generate_mesh_obj (world 0) 1 0 0 (Some 7) (Some 9) (Some buffer) 48 two_shapes.

(** A mesh export of handle 1 that succeeds. *)
Definition mesh_of_two_faces : result Z (option Z * option Z) :=
  occt_generate_mesh_obj (world 4096) 1 0 0 (Some 7) (Some 9) None 0 two_shapes.

(** A client that loads a file, fillets it, releases the original and fuses
    the copy with itself. *)
Definition session : list (@event Z Z unit) :=
  [ Call (world 4096) (LoadFromMemory None (Some step_bytes) 5) None 0;
    Call (world 4096) (Fillet 2 None 0 1 0) None 0;
    Call (world 4096) (ReleaseHandle 2) None 0;
    Call (world 4096) (Boolean 3 3 (Some "union") 0) None 0 ].

End Fixture.

(** ** A small modeler for examples

    Shapes are numbers as in the small world, 0 is the null shape, and the
    shape [n] has the edges [10 .. 10 + n - 1].  A fillet adds the number of
    filleted edges to the shape. *)
Module BindingsFixture.

Definition modeler : @Bindings.Modeler Z unit Z :=
  {| Bindings.TopoDS_Shape_default := 0;
     Bindings.BRepPrimAPI_MakeBox := fun _ _ _ => Done (Some 6);
     Bindings.BRepPrimAPI_MakeCylinder := fun _ _ => Done (Some 3);
     Bindings.BRepPrimAPI_MakeSphere := fun _ => Done (Some 1);
     Bindings.BRepPrimAPI_MakeCone := fun _ _ _ => Done (Some 2);
     Bindings.BRepPrimAPI_MakeTorus := fun _ _ => Done (Some 1);
     Bindings.Fuse := fun a b => Done (Some (a + b));
     Bindings.Cut := fun a b => Done (Some a);
     Bindings.Common := fun a b => Done (Some (Z.min a b));
     Bindings.TopExp_edges := fun shape => map Z.of_nat (seq 10 (Z.to_nat shape));
     Bindings.BRepFilletAPI_MakeFillet := fun shape added =>
       Done (Some (shape + Z.of_nat (length added)));
     Bindings.BRepPrimAPI_MakePrism := fun shape _ _ _ => Done (Some (shape + 2));
     Bindings.IncrementalMesh := fun shape _ => Done shape;
     Bindings.Transforms := fun _ p => p;
     Bindings.IGES_AddShape_Write := fun _ _ => Done true;
     Bindings.StlAPI_Write := fun _ _ => Done true |}.

End BindingsFixture.

(** ** Worlds that misbehave, and further examples *)
Module Faults.

Import Fixture.

(** The cut algorithm throws something that is not a [std::exception]. *)
Definition cut_throws : @World Z Z unit :=
  with_cut (world 4096) (fun _ _ _ => Raised other_exception).

(** Every face is a triangle of three nodes with three triangles, the second
    of which names the node 0. *)
Definition degenerate : Poly_Triangulation :=
  mk_Tri [mk_Pnt 0 0 0; mk_Pnt 1 0 0; mk_Pnt 0 1 0]
         [(1, 2, 3); (0, 1, 2); (3, 2, 1)].

Definition names_node_zero : @World Z Z unit :=
  with_triangulation (world 4096) (fun _ => Some (degenerate, tt)).

(** A session on the two shapes: handle 2 is released, handle 1 is meshed,
    filleted and fused with the copy. *)
Definition later_session : list (@event Z Z unit) :=
  [ Call (world 4096) (ReleaseHandle 2) None 0;
    Call (world 4096) (GenerateMeshObj 1 0 0 (Some 0) (Some 0)) None 0;
    Call (world 4096) (Fillet 1 None 0 1 0) None 0;
    Call (world 4096) (Boolean 1 3 (Some "fuse") 0) None 0 ].

(** The two shapes after handle 2 has been released. *)
Definition after_release : @state Z :=
  post (occt_release_handle 2 None 0 two_shapes).

(** An export of handle 1 that succeeds. *)
Definition export_of_handle_1 : result Z (option Z * option Z) :=
  occt_export_step (world 4096) 1 (Some 7) (Some 9) None 0 two_shapes.

(** The STEP reader throws something that is not a [std::exception]. *)
Definition reader_throws : @World Z Z unit :=
  with_step_reader (world 4096) (fun _ _ => Raised other_exception).

End Faults.

(** ** Properties *)

Section Properties.

Context {Shape Face Trsf : Type}.
Implicit Types (W : @World Shape Face Trsf) (s : @state Shape).
Implicit Types (out_error : option (list ascii)) (err_len : Z).

(** *** The error channel *)

Lemma write_error_declined msg out_error err_len :
  out_error = None \/ err_len <= 0 -> write_error msg out_error err_len = out_error.
Proof.
  intros [-> | Hle]; [reflexivity |].
  unfold write_error. destruct out_error as [buf |]; [| reflexivity].
  destruct (Z.ltb_spec 0 err_len); [lia | reflexivity].
Qed.

Lemma write_error_accepted msg buf err_len :
  0 < err_len -> write_error msg (Some buf) err_len = Some (snprintf buf err_len msg).
Proof.
  intros Hlt. unfold write_error.
  destruct (Z.ltb_spec 0 err_len); [reflexivity | lia].
Qed.

Lemma snprintf_text_length n msg :
  0 < n -> (Z.of_nat (length (snprintf_text n msg)) <= n)%Z.
Proof.
  intros Hn. unfold snprintf_text.
  rewrite length_app, length_take. simpl. lia.
Qed.

Lemma snprintf_length buf n msg :
  0 < n -> n <= Z.of_nat (length buf) -> length (snprintf buf n msg) = length buf.
Proof.
  intros Hn Hbuf. pose proof (snprintf_text_length n msg Hn) as Hlen.
  unfold snprintf. rewrite length_app, length_drop. lia.
Qed.

(** *** The names of the boolean operations *)

Lemma not_boolean_name (str : string) :
  str ∉ boolean_names ->
  String.eqb str "union" = false /\ String.eqb str "fuse" = false /\
  String.eqb str "cut" = false /\ String.eqb str "common" = false /\
  String.eqb str "intersect" = false.
Proof.
  intros Hnot. repeat split; apply String.eqb_neq; intros ->; apply Hnot;
    unfold boolean_names; set_solver.
Qed.

(** *** Release *)

(** C4: releasing a registered handle removes it and returns 1, leaving the
    error buffer, the counter and the other entries alone; releasing the same
    handle again at once returns 0 with the diagnostic "handle not found" and
    changes nothing. *)
Theorem release_then_release_again (handle : Z) (shape : Shape) s
    out_error err_len out_error' err_len' :
  shape_registry s !! handle = Some shape ->
  let r1 := occt_release_handle handle out_error err_len s in
  let r2 := occt_release_handle handle out_error' err_len' (post r1) in
  ret r1 = Returns 1 /\
  shape_registry (post r1) = delete handle (shape_registry s) /\
  shape_registry (post r1) !! handle = None /\
  next_handle (post r1) = next_handle s /\
  heap (post r1) = heap s /\
  err r1 = out_error /\
  ret r2 = Returns 0 /\
  err r2 = write_error "handle not found" out_error' err_len' /\
  post r2 = post r1.
Proof.
  intros Hreg.
  assert (occt_release_handle handle out_error err_len s
          = mk_result (Returns 1)
              (set_registry s (delete handle (shape_registry s))) out_error tt) as ->.
  { unfold occt_release_handle. rewrite Hreg. reflexivity. }
  cbn. unfold occt_release_handle. cbn. rewrite lookup_delete_eq.
  repeat split; reflexivity.
Qed.

(** *** Loading nothing *)

(** C5: with a null [data] pointer, or with [len = 0], [occt_load_from_memory]
    returns 0 with the diagnostic "empty input data", whatever the file name;
    no handle is taken from the counter and the state is the one before. *)
Theorem load_empty_input W (filename : option string) out_error err_len s :
  (forall len,
     occt_load_from_memory W filename None len out_error err_len s
     = mk_result (Returns 0) s (write_error "empty input data" out_error err_len) tt) /\
  (forall bytes,
     occt_load_from_memory W filename (Some bytes) 0 out_error err_len s
     = mk_result (Returns 0) s (write_error "empty input data" out_error err_len) tt).
Proof. split; intros; reflexivity. Qed.

(** *** Boolean operations *)

(** C9: "union" and "fuse" name the same operation, and so do "common" and
    "intersect": in every world and state, for all handles and tolerances,
    [occt_boolean] gives the same result under either name; with both handles
    registered, the first pair is decided by the fuse algorithm of the kernel
    and the second by its common algorithm. *)
Theorem boolean_aliases W (target tool : Z) (tolerance : float) out_error err_len s :
  occt_boolean W target tool (Some "union") tolerance out_error err_len s
  = occt_boolean W target tool (Some "fuse") tolerance out_error err_len s /\
  occt_boolean W target tool (Some "common") tolerance out_error err_len s
  = occt_boolean W target tool (Some "intersect") tolerance out_error err_len s /\
  forall Ta Ua W',
    shape_registry s !! target = Some Ta -> shape_registry s !! tool = Some Ua ->
    (BRepAlgoAPI_Fuse W' Ta Ua tolerance = BRepAlgoAPI_Fuse W Ta Ua tolerance ->
     occt_boolean W' target tool (Some "union") tolerance out_error err_len s
     = occt_boolean W target tool (Some "fuse") tolerance out_error err_len s) /\
    (BRepAlgoAPI_Common W' Ta Ua tolerance = BRepAlgoAPI_Common W Ta Ua tolerance ->
     occt_boolean W' target tool (Some "common") tolerance out_error err_len s
     = occt_boolean W target tool (Some "intersect") tolerance out_error err_len s).
Proof.
  split; [reflexivity |]. split; [reflexivity |].
  intros Ta Ua W' HT HU. unfold occt_boolean. rewrite HT, HU.
  split; intros Heq; unfold boolean_try; cbn; rewrite Heq; reflexivity.
Qed.

(** C2, as the code has it: with an operation name outside union, fuse, cut,
    common and intersect, [occt_boolean] returns 0 and leaves the state alone
    for all handles and tolerances; the diagnostic is "unknown boolean
    operation" when both handles are registered, and "target or tool handle
    not found" when one of them is not, since the handles are looked up
    first. *)
Theorem boolean_unknown_operation W (target tool : Z) (op : option string)
    (tolerance : float) out_error err_len s :
  default "" op ∉ boolean_names ->
  let r := occt_boolean W target tool op tolerance out_error err_len s in
  ret r = Returns 0 /\ post r = s /\
  err r =
    (if bool_decide (is_Some (shape_registry s !! target) /\
                     is_Some (shape_registry s !! tool))
     then write_error "unknown boolean operation" out_error err_len
     else write_error "target or tool handle not found" out_error err_len).
Proof.
  intros Hnot r. subst r.
  destruct (not_boolean_name _ Hnot) as (Hu & Hf & Hc & Hm & Hi).
  unfold occt_boolean, boolean_try. rewrite Hu, Hf, Hc, Hm, Hi.
  case_bool_decide as Hd.
  - destruct Hd as [[Ta HT] [Ua HU]]. rewrite HT, HU. cbn.
    repeat split; reflexivity.
  - destruct (shape_registry s !! target) as [Ta |] eqn:HT;
      [destruct (shape_registry s !! tool) as [Ua |] eqn:HU |].
    + exfalso. apply Hd. split; eexists; reflexivity.
    + repeat split; reflexivity.
    + repeat split; reflexivity.
Qed.

(** *** Null output pointers *)

(** C10: with a null [out_buf] or a null [out_len], [occt_export_step] and
    [occt_generate_mesh_obj] return 0 with the diagnostic "invalid output
    pointers"; the state and the cells are as before, in every world and
    whether the handle is registered or not, so neither the registry nor the
    kernel has been consulted. *)
Theorem null_output_pointers W (handle : Z) (deflection : float) (linear_deflection : Z)
    (out_buf out_len : option Z) out_error err_len s :
  out_buf = None \/ out_len = None ->
  occt_export_step W handle out_buf out_len out_error err_len s
  = mk_result (Returns 0) s
      (write_error "invalid output pointers" out_error err_len) (out_buf, out_len) /\
  occt_generate_mesh_obj W handle deflection linear_deflection out_buf out_len
      out_error err_len s
  = mk_result (Returns 0) s
      (write_error "invalid output pointers" out_error err_len) (out_buf, out_len).
Proof.
  intros Hnull.
  assert (occt_export_step W handle out_buf out_len out_error err_len s
          = fail "invalid output pointers" out_error err_len s (out_buf, out_len)
          /\ occt_generate_mesh_obj W handle deflection linear_deflection out_buf out_len
               out_error err_len s
          = fail "invalid output pointers" out_error err_len s (out_buf, out_len)) as H.
  { unfold occt_export_step, occt_generate_mesh_obj.
    destruct out_buf as [b |], out_len as [l |]; try (split; reflexivity).
    destruct Hnull; discriminate. }
  exact H.
Qed.

(** *** Failed exports *)

Lemma emit_buffer_cases W (content : list byte) (n : Z) out_error err_len s :
  let r := emit_buffer W content n out_error err_len s in
  let len := uint64_wrap n in
  (malloc W (heap s) len = 0 /\
   r = fail "malloc failed" out_error err_len s (Some 0, Some len)) \/
  (malloc W (heap s) len <> 0 /\
   r = mk_result (Returns 1)
         (mk_state (shape_registry s) (next_handle s)
            (<[malloc W (heap s) len := take (Z.to_nat len) content]> (heap s)))
         out_error (Some (malloc W (heap s) len), Some len)).
Proof.
  unfold emit_buffer. cbn zeta.
  destruct (Z.eqb_spec (malloc W (heap s) (uint64_wrap n)) 0) as [Hz | Hnz].
  - left. split; [exact Hz | reflexivity].
  - right. split; [exact Hnz | reflexivity].
Qed.

Lemma fail_frame W msg (out_buf out_len : option Z) out_error err_len s :
  failure_frame W out_buf out_len out_error err_len s
    (fail msg out_error err_len s (out_buf, out_len)).
Proof. split; [reflexivity | left; reflexivity]. Qed.

Lemma emit_buffer_frame W content n (out_buf out_len : option Z) out_error err_len s :
  ret (emit_buffer W content n out_error err_len s) = Returns 0 ->
  failure_frame W out_buf out_len out_error err_len s
    (emit_buffer W content n out_error err_len s).
Proof.
  destruct (emit_buffer_cases W content n out_error err_len s) as [[Hz ->] | [Hnz ->]].
  - intros _. split; [reflexivity |]. right. exists (uint64_wrap n). auto.
  - cbn. discriminate.
Qed.


(** *** The shape of every call *)

Lemma register_eq (shape : Shape) s :
  register shape s
  = (next_handle s,
     mk_state (<[next_handle s := shape]> (shape_registry s))
              (uint64_wrap (next_handle s + 1)) (heap s)).
Proof. reflexivity. Qed.

Lemma upload_path_not_empty (id name : string) :
  String.eqb ("/tmp/occt_upload_" +:+ id +:+ "_" +:+ name) "" = false.
Proof. reflexivity. Qed.

(** The leaves of the case analysis of an operation. *)
Ltac outcome_leaf :=
  lazymatch goal with
  | |- context [register ?shape ?s0] =>
    apply (outcome_registered _ _ _ _ _ _ s0 shape);
    [ first [left; reflexivity | right; assumption] | reflexivity ]
  | |- _ =>
    cbv [with_cells fail]; cbn [ret post err outs fst snd];
    first
      [ eapply outcome_fail; left; reflexivity
      | eapply outcome_fail; right; split; [reflexivity | assumption]
      | solve [eapply outcome_abrupt; intros v; discriminate]
      | eapply outcome_done; [reflexivity | reflexivity | intros k Hk; exact Hk] ]
  end.

(** A call into a collaborator: its value, or the two kinds of exception. *)
Ltac kernel_case :=
  match goal with
  | |- context [match ?x with Done _ => _ | Raised _ => _ end] =>
    lazymatch x with
    | context [@Raised _ _] => fail
    | _ => destruct x as [? | [? | ]]
    end
  end.

Lemma emit_buffer_outcome W (c : call) content len e n e' n' s :
  returns_handle c = false ->
  outcome s c e n e' n'
    (with_cells (fun o => BufferCells o.1 o.2) (emit_buffer W content len e n s))
    (with_cells (fun o => BufferCells o.1 o.2) (emit_buffer W content len e' n' s)).
Proof.
  intros Hc. unfold emit_buffer. cbn zeta.
  destruct (malloc W (heap s) (uint64_wrap len) =? 0); [outcome_leaf |].
  cbv [with_cells]; cbn [ret post err outs fst snd].
  eapply outcome_done; [exact Hc | reflexivity | intros k Hk; exact Hk].
Qed.

Lemma exec_outcome W (c : call) e n e' n' s :
  outcome s c e n e' n' (exec W c e n s) (exec W c e' n' s).
Proof.
  destruct c; cbn [exec].
  - (* occt_init *) unfold occt_init. outcome_leaf.
  - (* occt_load_from_memory *)
    unfold occt_load_from_memory.
    destruct data as [bytes |]; [| outcome_leaf].
    destruct (len =? 0); [outcome_leaf |].
    unfold write_temp_file.
    destruct (fetch_add s) as [id s1] eqn:Hfa.
    assert (s1 = (fetch_add s).2) as Hs1 by (rewrite Hfa; reflexivity).
    clear Hfa.
    destruct (ofstream_open W _); [| outcome_leaf].
    rewrite upload_path_not_empty. unfold load_try.
    kernel_case; [| outcome_leaf | outcome_leaf].
    destruct (is_RetDone _).
    + kernel_case; [| outcome_leaf | outcome_leaf].
      destruct (_ =? 0); [outcome_leaf |].
      kernel_case; [| outcome_leaf | outcome_leaf].
      destruct (IsNull W _); outcome_leaf.
    + kernel_case; [| outcome_leaf | outcome_leaf].
      destruct (is_RetDone _); [| outcome_leaf].
      kernel_case; [| outcome_leaf | outcome_leaf].
      destruct (_ =? 0); [outcome_leaf |].
      kernel_case; [| outcome_leaf | outcome_leaf].
      destruct (IsNull W _); outcome_leaf.
  - (* occt_export_step *)
    unfold occt_export_step.
    destruct out_buf as [b |]; [| outcome_leaf].
    destruct out_len as [l |]; [| outcome_leaf].
    destruct (shape_registry s !! handle) as [shape |]; [| outcome_leaf].
    unfold export_try.
    kernel_case; [| outcome_leaf | outcome_leaf].
    destruct (is_RetDone _); [| outcome_leaf]. cbn [negb].
    kernel_case; [| outcome_leaf | outcome_leaf].
    destruct (is_RetDone _); [| outcome_leaf]. cbn [negb].
    destruct (ifstream_open W _); [| outcome_leaf]. cbn [negb].
    kernel_case; [| outcome_leaf | outcome_leaf].
    destruct (ifstream_read W _ _) as [buffer |]; [| outcome_leaf].
    apply emit_buffer_outcome. reflexivity.
  - (* occt_get_bounds *)
    unfold occt_get_bounds.
    destruct (shape_registry s !! handle) as [shape |]; [| outcome_leaf].
    destruct (Bnd_Box_Get W shape) as [box | [what |]]; outcome_leaf.
  - (* occt_boolean *)
    unfold occt_boolean.
    destruct (shape_registry s !! target) as [Ta |]; [| outcome_leaf].
    destruct (shape_registry s !! tool) as [Ua |]; [| outcome_leaf].
    unfold boolean_try.
    destruct (_ || _).
    { destruct (BRepAlgoAPI_Fuse W Ta Ua tolerance) as [[shape |] | [what |]];
        outcome_leaf. }
    destruct (String.eqb _ _).
    { destruct (BRepAlgoAPI_Cut W Ta Ua tolerance) as [[shape |] | [what |]];
        outcome_leaf. }
    destruct (_ || _); [| outcome_leaf].
    destruct (BRepAlgoAPI_Common W Ta Ua tolerance) as [[shape |] | [what |]];
      outcome_leaf.
  - (* occt_fillet *)
    unfold occt_fillet.
    destruct (shape_registry s !! target) as [copyShape |]; outcome_leaf.
  - (* occt_generate_mesh_obj *)
    unfold occt_generate_mesh_obj.
    destruct out_buf as [b |]; [| outcome_leaf].
    destruct out_len as [l |]; [| outcome_leaf].
    destruct (shape_registry s !! handle) as [shape |]; [| outcome_leaf].
    unfold mesh_try.
    kernel_case; [| outcome_leaf | outcome_leaf].
    destruct (mesh_faces W _ [] []) as [[global_vertices global_faces] |];
      [| outcome_leaf].
    apply emit_buffer_outcome. reflexivity.
  - (* occt_release_handle *)
    unfold occt_release_handle.
    destruct (shape_registry s !! handle) as [shape |] eqn:Hreg; [| outcome_leaf].
    cbv [with_cells]; cbn [ret post err outs].
    eapply outcome_done; [reflexivity | reflexivity |].
    intros k. cbn. rewrite lookup_delete_is_Some. intros [_ Hk]. exact Hk.
Qed.

(** *** Fillet *)

(** C6: in a state where the counter is ahead of the registry, [occt_fillet]
    on a registered [target] returns the value [h] of the counter, which is
    not 0, not [target] and not yet registered; afterwards [h] holds the very
    shape of [target], and nothing else in the registry has changed, whatever
    the edges, the radius and the tolerance are.  On a [target] that is not
    registered it returns 0 with "target handle not found" and the state is
    as before. *)
Theorem fillet_duplicates_target (target : Z) (edge_ids : option (list Z)) (edge_count : Z)
    (radius tolerance : float) out_error err_len s :
  counter_ahead s ->
  let r := occt_fillet target edge_ids edge_count radius tolerance out_error err_len s in
  match shape_registry s !! target with
  | Some shape =>
    let h := next_handle s in
    ret r = Returns h /\ h <> 0 /\ h <> target /\
    shape_registry s !! h = None /\
    shape_registry (post r) = <[h := shape]> (shape_registry s) /\
    shape_registry (post r) !! h = Some shape /\
    shape_registry (post r) !! target = Some shape /\
    heap (post r) = heap s /\
    err r = out_error
  | None =>
    ret r = Returns 0 /\ post r = s /\
    err r = write_error "target handle not found" out_error err_len
  end.
Proof.
  intros [Hcounter Hkeys] r. subst r. unfold occt_fillet.
  destruct (shape_registry s !! target) as [shape |] eqn:Htarget.
  - rewrite register_eq. cbn.
    assert (1 <= target < next_handle s) as Hlt by (apply Hkeys; eauto).
    assert (shape_registry s !! next_handle s = None) as Hfresh.
    { destruct (shape_registry s !! next_handle s) as [x |] eqn:Hx; [| reflexivity].
      assert (1 <= next_handle s < next_handle s) by (apply Hkeys; eauto). lia. }
    repeat split; try reflexivity; try lia; try exact Hfresh.
    + apply lookup_insert_eq.
    + rewrite lookup_insert_ne by lia. exact Htarget.
  - repeat split; reflexivity.
Qed.

(** *** The handle counter *)

Lemma uint64_wrap_small (z : Z) : 0 <= z < 2 ^ 64 -> uint64_wrap z = z.
Proof. intros Hz. unfold uint64_wrap. apply Z.mod_small. exact Hz. Qed.

Lemma issued_zero {O : Type} (c : call) s1 e (o : O) :
  issued c (mk_result (Returns 0) s1 e o) = None.
Proof. unfold issued. destruct (returns_handle c); reflexivity. Qed.

Lemma issued_handle {O : Type} (c : call) (r : @result Shape Z O) (h : Z) :
  issued c r = Some h -> returns_handle c = true /\ ret r = Returns h /\ h <> 0.
Proof.
  unfold issued. destruct (returns_handle c); [| discriminate].
  destruct (ret r) as [v | |]; try discriminate.
  destruct (Z.eqb_spec v 0); [discriminate |].
  intros [= ->]. auto.
Qed.

(** One call keeps the counter ahead of the registry, moves it by at most
    two, hands out only values the counter has passed in this call, and adds
    no key to the registry but the handle it hands out. *)
Lemma outcome_step s (c : call) e n r r' :
  counter_ahead s -> next_handle s + 2 < 2 ^ 64 ->
  outcome s c e n e n r r' ->
  counter_ahead (post r) /\
  next_handle s <= next_handle (post r) <= next_handle s + 2 /\
  (forall h, issued c r = Some h -> next_handle s <= h < next_handle (post r)) /\
  (forall k, is_Some (shape_registry (post r) !! k) ->
             is_Some (shape_registry s !! k) \/ issued c r = Some k).
Proof.
  intros [Hcounter Hkeys] Hroom Hout.
  assert (uint64_wrap (next_handle s + 1) = next_handle s + 1) as Hw1
    by (apply uint64_wrap_small; lia).
  assert (uint64_wrap (next_handle s + 1 + 1) = next_handle s + 2) as Hw2
    by (rewrite uint64_wrap_small; lia).
  destruct Hout as [s0 msg o Hs0 | s0 shape Hs0 Hc | s1 o Hc Hnext Hsub | k o Hk].
  - (* a diagnostic *)
    cbn [post]. setoid_rewrite issued_zero.
    assert (next_handle s <= next_handle s0 <= next_handle s + 1 /\
            shape_registry s0 = shape_registry s) as (Hn0 & Hreg0).
    { destruct Hs0 as [-> | [_ ->]]; cbn; rewrite ?Hw1; split; (lia || reflexivity). }
    unfold counter_ahead. rewrite Hreg0.
    split; [split; [lia | intros k Hk; specialize (Hkeys k Hk); lia] |].
    split; [lia |].
    split; [intros h Hh; discriminate | intros k Hk; left; exact Hk].
  - (* a new handle *)
    rewrite register_eq. cbn [post fst snd].
    assert (next_handle s <= next_handle s0 <= next_handle s + 1 /\
            shape_registry s0 = shape_registry s /\
            uint64_wrap (next_handle s0 + 1) = next_handle s0 + 1) as (Hn0 & Hreg0 & Hw0).
    { destruct Hs0 as [-> | ->]; cbn; rewrite ?Hw1;
        repeat split; first [lia | exact Hw1 | exact Hw2]. }
    assert (issued c (mk_result (Returns (next_handle s0))
                        (mk_state (<[next_handle s0 := shape]> (shape_registry s0))
                           (uint64_wrap (next_handle s0 + 1)) (heap s0)) e NoCells)
            = Some (next_handle s0)) as Hissued.
    { unfold issued. rewrite Hc. cbn.
      destruct (Z.eqb_spec (next_handle s0) 0); [lia | reflexivity]. }
    rewrite Hissued. unfold counter_ahead. cbn. rewrite Hw0, Hreg0.
    assert (forall k, is_Some (<[next_handle s0 := shape]> (shape_registry s) !! k) ->
                      k = next_handle s0 \/ is_Some (shape_registry s !! k)) as Hins.
    { intros k Hk. apply lookup_insert_is_Some in Hk as [<- | [_ Hk]]; auto. }
    split; [split; [lia |] |].
    { intros k Hk. destruct (Hins k Hk) as [-> | Hk']; [lia |].
      specialize (Hkeys k Hk'). lia. }
    split; [lia |].
    split; [intros h [= <-]; lia |].
    intros k Hk. destruct (Hins k Hk) as [-> | Hk']; auto.
  - (* a result without a handle *)
    assert (forall h, issued c (mk_result (Returns 1) s1 e o) = Some h -> False) as Hnone.
    { intros h Hh. apply issued_handle in Hh as [Hh _]. congruence. }
    cbn [post]. unfold counter_ahead. rewrite Hnext.
    split; [split; [lia | intros k0 Hk0; apply Hkeys, Hsub; exact Hk0] |].
    split; [lia |].
    split; [intros h Hh; exfalso; eauto | intros k0 Hk0; left; apply Hsub; exact Hk0].
  - (* an abrupt end *)
    assert (forall h, issued c (mk_result k s e o) = Some h -> False) as Hnone.
    { intros h Hh. apply issued_handle in Hh as (_ & Hh & _). cbn in Hh.
      exact (Hk h Hh). }
    cbn [post].
    split; [split; [lia | exact Hkeys] |].
    split; [lia |].
    split; [intros h Hh; exfalso; eauto | intros k0 Hk0; left; exact Hk0].
Qed.

(** The wrapper starts with the counter ahead of the (empty) registry. *)
Lemma initial_state_counter_ahead : counter_ahead (@initial_state Shape).
Proof.
  split; [cbn; lia |].
  intros k [x Hx]. cbn in Hx. rewrite lookup_empty in Hx. discriminate Hx.
Qed.

Lemma free_buffer_step (buf : Z) s :
  shape_registry (occt_free_buffer buf s).2 = shape_registry s /\
  next_handle (occt_free_buffer buf s).2 = next_handle s.
Proof.
  unfold occt_free_buffer.
  destruct (buf =? 0); [split; reflexivity |].
  destruct (heap s !! buf); split; reflexivity.
Qed.

Lemma no_handles_issued s s1 :
  counter_ahead s1 -> next_handle s <= next_handle s1 ->
  (forall k, is_Some (shape_registry s1 !! k) -> is_Some (shape_registry s !! k)) ->
  Forall (fun h => 1 <= h /\ next_handle s <= h < next_handle s1) [] /\
  StronglySorted Z.lt [] /\
  NoDup ([] : list Z) /\
  counter_ahead s1 /\
  next_handle s <= next_handle s1 /\
  (forall k, is_Some (shape_registry s1 !! k) ->
             is_Some (shape_registry s !! k) \/ k ∈ ([] : list Z)).
Proof.
  intros Hahead Hnext Hkeys.
  split; [constructor |]. split; [constructor |]. split; [constructor |].
  split; [exact Hahead |]. split; [exact Hnext |].
  intros k Hk. left. apply Hkeys. exact Hk.
Qed.

(** C3: from a state where the counter is ahead of the registry (the initial
    state is one), along any sequence of calls and frees that does not
    exhaust the 64-bit counter, the handles issued by [occt_load_from_memory],
    [occt_boolean] and [occt_fillet] are all at least 1 and at least the
    counter at the start, each is strictly greater than all issued before it,
    no two are equal (releases in between do not bring a value back), and
    every key the registry has gained is one of them, so that nothing is ever
    registered under 0. *)
Theorem issued_handles_increase (evs : list (@event Shape Face Trsf)) s s' (hs : list Z) :
  counter_ahead s ->
  next_handle s + 2 * Z.of_nat (length evs) < 2 ^ 64 ->
  run evs s = (s', hs) ->
  Forall (fun h => 1 <= h /\ next_handle s <= h < next_handle s') hs /\
  StronglySorted Z.lt hs /\
  NoDup hs /\
  counter_ahead s' /\
  next_handle s <= next_handle s' /\
  (forall k, is_Some (shape_registry s' !! k) ->
             is_Some (shape_registry s !! k) \/ k ∈ hs).
Proof.
  revert s s' hs.
  induction evs as [| ev rest IH]; intros s s' hs Hahead Hroom Hrun.
  - cbn in Hrun. injection Hrun as <- <-.
    apply no_handles_issued; [exact Hahead | lia | auto].
  - assert (forall s1, next_handle s <= next_handle s1 <= next_handle s + 2 ->
              next_handle s1 + 2 * Z.of_nat (length rest) < 2 ^ 64) as Hrest.
    { intros s1 Hs1. cbn [length] in Hroom. lia. }
    destruct ev as [W c e n | buf].
    + cbn [run] in Hrun. cbn zeta in Hrun.
      destruct (outcome_step s c e n _ _ Hahead ltac:(cbn [length] in Hroom; lia)
                  (exec_outcome W c e n e n s))
        as (Hahead1 & Hnext1 & Hissued & Hkeys1).
      set (r := exec W c e n s) in *.
      assert (1 <= next_handle s) as Hone by (destruct Hahead; lia).
      assert (ret r = Undefined \/
              exists s2 hs2, run rest (post r) = (s2, hs2) /\ s' = s2 /\
                hs = match issued c r with Some h => h :: hs2 | None => hs2 end) as Hcases.
      { destruct (ret r) as [v | x |]; [right | right | left; reflexivity];
          destruct (run rest (post r)) as [s2 hs2];
          injection Hrun as <- <-; eauto. }
      destruct Hcases as [Hundef | (s2 & hs2 & Hrun2 & -> & ->)].
      { rewrite Hundef in Hrun. injection Hrun as <- <-.
        apply no_handles_issued; [exact Hahead1 | lia |].
        intros k Hk. destruct (Hkeys1 k Hk) as [Hk' | Hk']; [exact Hk' |].
        apply issued_handle in Hk' as (_ & Hk' & _). congruence. }
      destruct (IH (post r) s2 hs2 Hahead1 (Hrest _ Hnext1) Hrun2)
        as (Hall & Hsorted & Hnodup & Hahead2 & Hnext2 & Hkeys2).
      assert (Forall (fun h => 1 <= h /\ next_handle s <= h < next_handle s2) hs2) as Hall'.
      { eapply Forall_impl; [exact Hall |]. cbn. intros h Hh. lia. }
      assert (forall k, is_Some (shape_registry s2 !! k) ->
                is_Some (shape_registry s !! k) \/ issued c r = Some k \/ k ∈ hs2) as Hkeys'.
      { intros k Hk. destruct (Hkeys2 k Hk) as [Hk' | Hk']; [| auto].
        destruct (Hkeys1 k Hk'); auto. }
      destruct (issued c r) as [h |] eqn:Hh.
      * specialize (Hissued h eq_refl).
        assert (Forall (Z.lt h) hs2) as Hlt.
        { eapply Forall_impl; [exact Hall |]. cbn. intros h' Hh'. lia. }
        split; [| split; [| split; [| split; [| split]]]].
        -- constructor; [lia | exact Hall'].
        -- constructor; assumption.
        -- constructor; [| assumption].
           intros Hin. rewrite Forall_forall in Hlt. specialize (Hlt h Hin). lia.
        -- exact Hahead2.
        -- lia.
        -- intros k Hk. destruct (Hkeys' k Hk) as [Hk' | [[= ->] | Hk']]; [auto | |].
           ++ right. apply list_elem_of_here.
           ++ right. apply list_elem_of_further. exact Hk'.
      * split; [exact Hall' |]. split; [exact Hsorted |]. split; [exact Hnodup |].
        split; [exact Hahead2 |]. split; [lia |].
        intros k Hk. destruct (Hkeys' k Hk) as [Hk' | [Hk' | Hk']];
          [auto | discriminate | auto].
    + cbn [run] in Hrun.
      destruct (free_buffer_step buf s) as [Hreg Hnext].
      destruct (occt_free_buffer buf s) as [k s1]. cbn [snd] in Hreg, Hnext.
      assert (counter_ahead s1) as Hahead1.
      { unfold counter_ahead. rewrite Hreg, Hnext. exact Hahead. }
      destruct k as [u | x |].
      * assert (next_handle s1 + 2 * Z.of_nat (length rest) < 2 ^ 64) as Hroom1
          by (apply Hrest; lia).
        destruct (IH s1 s' hs Hahead1 Hroom1 Hrun)
          as (Hall & Hsorted & Hnodup & Hahead2 & Hnext2 & Hkeys2).
        rewrite Hnext in Hall, Hnext2. rewrite Hreg in Hkeys2.
        split; [exact Hall |]. split; [exact Hsorted |]. split; [exact Hnodup |].
        split; [exact Hahead2 |]. split; [exact Hnext2 | exact Hkeys2].
      * injection Hrun as <- <-.
        apply no_handles_issued; [exact Hahead1 | lia | rewrite Hreg; auto].
      * injection Hrun as <- <-.
        apply no_handles_issued; [exact Hahead1 | lia | rewrite Hreg; auto].
Qed.

(** *** The text export *)

Lemma int_of_size_t_small (z : Z) : 0 <= z <= INT_MAX -> int_of_size_t z = z.
Proof.
  unfold int_of_size_t, INT_MAX. intros Hz.
  rewrite Z.mod_small by lia. lia.
Qed.

Lemma mesh_nodes_vertices W (tr : Trsf) (nodes : list gp_Pnt) (ni : nat)
    (global_vertices : list gp_Pnt) (localToGlobal : list Z) :
  (mesh_nodes W tr nodes ni global_vertices localToGlobal).1
  = global_vertices ++ map (Transform W tr) nodes.
Proof.
  revert ni global_vertices localToGlobal.
  induction nodes as [| p rest IH]; intros ni gv l2g; cbn.
  - rewrite app_nil_r. reflexivity.
  - rewrite IH, <- app_assoc. reflexivity.
Qed.

Lemma mesh_nodes_lookup W (tr : Trsf) (nodes : list gp_Pnt) (ni : nat)
    (global_vertices : list gp_Pnt) (localToGlobal : list Z) (i : nat) :
  (ni + length nodes <= length localToGlobal)%nat ->
  (mesh_nodes W tr nodes ni global_vertices localToGlobal).2 !! i
  = if decide (ni <= i < ni + length nodes)%nat
    then Some (int_of_size_t (Z.of_nat (length global_vertices + (i - ni) + 1)))
    else localToGlobal !! i.
Proof.
  revert ni global_vertices localToGlobal.
  induction nodes as [| p rest IH]; intros ni gv l2g Hlen; cbn [mesh_nodes length] in *.
  - cbn. rewrite decide_False by lia. reflexivity.
  - rewrite IH by (rewrite length_insert; lia).
    rewrite length_app. cbn [length].
    destruct (decide (S ni <= i < S ni + length rest)%nat) as [Hin | Hout].
    + rewrite decide_True by lia. do 2 f_equal. lia.
    + destruct (decide (i = ni)) as [-> | Hne].
      * rewrite decide_True by lia.
        rewrite list_lookup_insert_eq by lia. do 2 f_equal. lia.
      * rewrite decide_False by lia.
        rewrite list_lookup_insert_ne by lia. reflexivity.
Qed.

Lemma mesh_triangles_in_range (triangles : list (Z * Z * Z)) (localToGlobal : list Z)
    (global_faces : list (Z * Z * Z)) (offset n : Z) :
  0 <= offset ->
  (forall i, 0 < i <= n -> vector_at localToGlobal i = Some (offset + i)) ->
  Forall (triangle_within 0 n) triangles ->
  mesh_triangles triangles localToGlobal global_faces
  = Some (global_faces ++ map (shift offset) triangles).
Proof.
  intros Hoff Hat. revert global_faces.
  induction triangles as [| [[n1 n2] n3] rest IH]; intros gf Hall; cbn.
  - rewrite app_nil_r. reflexivity.
  - apply Forall_cons in Hall as [(H1 & H2 & H3) Hall].
    rewrite (Hat n1 H1), (Hat n2 H2), (Hat n3 H3). cbn.
    destruct (Z.leb_spec (offset + n1) 0); [lia |].
    destruct (Z.leb_spec (offset + n2) 0); [lia |].
    destruct (Z.leb_spec (offset + n3) 0); [lia |].
    cbn. rewrite IH by exact Hall. rewrite <- app_assoc. reflexivity.
Qed.

Lemma export_vertices_cons W (face : Face) (faces : list Face) :
  export_vertices W (face :: faces) = face_vertices W face ++ export_vertices W faces.
Proof. reflexivity. Qed.

(** The face loop, on faces as the kernel delivers them and with no more
    vertices than an [int] can count, computes the lists of the
    specification. *)
Lemma mesh_faces_export W (faces : list Face)
    (global_vertices : list gp_Pnt) (global_faces : list (Z * Z * Z)) :
  Forall (face_in_range W) faces ->
  Z.of_nat (length global_vertices + length (export_vertices W faces)) <= INT_MAX ->
  mesh_faces W faces global_vertices global_faces
  = Some (global_vertices ++ export_vertices W faces,
          global_faces
            ++ export_triangles W faces (Z.of_nat (length global_vertices))).
Proof.
  revert global_vertices global_faces.
  induction faces as [| face rest IH]; intros gv gf Hall Hmax.
  - cbn. rewrite !app_nil_r. reflexivity.
  - apply Forall_cons in Hall as [Hface Hall].
    rewrite export_vertices_cons, length_app in Hmax.
    cbn [mesh_faces export_triangles]. rewrite export_vertices_cons.
    unfold face_in_range, face_vertices, face_triangles in *.
    destruct (BRep_Tool_Triangulation W face) as [[tri tr] |].
    + rewrite length_map in *.
      destruct (mesh_nodes W tr (Nodes tri) 1 gv
                  (replicate (Z.to_nat (NbNodes tri + 1)) (-1)))
        as [gv1 l2g1] eqn:Hnodes.
      assert (gv1 = gv ++ map (Transform W tr) (Nodes tri)) as ->.
      { rewrite <- (mesh_nodes_vertices W tr (Nodes tri) 1 gv
                      (replicate (Z.to_nat (NbNodes tri + 1)) (-1))).
        rewrite Hnodes. reflexivity. }
      assert (forall i, 0 < i <= NbNodes tri ->
                vector_at l2g1 i = Some (Z.of_nat (length gv) + i)) as Hat.
      { intros i Hi. unfold vector_at.
        destruct (Z.ltb_spec i 0); [lia |].
        replace l2g1 with
          (mesh_nodes W tr (Nodes tri) 1 gv
             (replicate (Z.to_nat (NbNodes tri + 1)) (-1))).2
          by (rewrite Hnodes; reflexivity).
        unfold NbNodes in *.
        rewrite mesh_nodes_lookup by (rewrite length_replicate; lia).
        rewrite decide_True by lia.
        rewrite int_of_size_t_small by lia. f_equal. lia. }
      rewrite (mesh_triangles_in_range _ _ _ (Z.of_nat (length gv)) (NbNodes tri))
        by (lia || assumption).
      cbn. rewrite IH.
      * rewrite length_app, length_map, <- !app_assoc, Nat2Z.inj_add.
        reflexivity.
      * exact Hall.
      * rewrite length_app, length_map. lia.
    + cbn. rewrite Z.add_0_r. apply IH; [exact Hall |]. cbn in Hmax. lia.
Qed.

Lemma append_cons (ch : ascii) (a b : string) : String ch a +:+ b = String ch (a +:+ b).
Proof. reflexivity. Qed.

Lemma append_assoc (a b c : string) : (a +:+ b) +:+ c = a +:+ (b +:+ c).
Proof.
  induction a as [| ch a IH]; [reflexivity |].
  rewrite !append_cons, IH. reflexivity.
Qed.

Lemma append_empty_r (a : string) : a +:+ "" = a.
Proof.
  induction a as [| ch a IH]; [reflexivity |].
  rewrite append_cons, IH. reflexivity.
Qed.

(** Writing the items of a list to a stream one after the other appends the
    concatenation of what is written for each. *)
Lemma stream_loop {A : Type} (line : A -> string) (items : list A) (obj : string) :
  fold_left (fun obj x => obj +:+ line x) items obj
  = obj +:+ fold_right String.append "" (map line items).
Proof.
  revert obj. induction items as [| x rest IH]; intros obj;
    cbn [fold_left fold_right map].
  - rewrite append_empty_r. reflexivity.
  - rewrite IH, append_assoc. reflexivity.
Qed.

Lemma obj_text_export_text W (vertices : list gp_Pnt) (triangles : list (Z * Z * Z)) :
  obj_text W vertices triangles = export_text W vertices triangles.
Proof.
  unfold obj_text, export_text. rewrite !stream_loop, append_assoc. reflexivity.
Qed.

Lemma count_endl_append (a b : string) :
  count_endl (a +:+ b) = (count_endl a + count_endl b)%nat.
Proof.
  induction a as [| ch a IH]; [reflexivity |].
  rewrite append_cons. cbn [count_endl]. rewrite IH. lia.
Qed.

Lemma count_endl_digits (d : Decimal.uint) :
  count_endl (NilEmpty.string_of_uint d) = 0%nat.
Proof.
  induction d as [| d IH | d IH | d IH | d IH | d IH | d IH | d IH | d IH | d IH | d IH];
    [reflexivity | ..]; simpl; exact IH.
Qed.

Lemma count_endl_uint (d : Decimal.uint) : count_endl (NilZero.string_of_uint d) = 0%nat.
Proof. destruct d; try reflexivity; apply (count_endl_digits (_ d)). Qed.

Lemma count_endl_to_string (z : Z) : count_endl (to_string z) = 0%nat.
Proof.
  unfold to_string. destruct (Z.to_int z) as [d | d]; cbn; apply count_endl_uint.
Qed.

Lemma count_endl_obj_face (f : Z * Z * Z) : count_endl (obj_face f) = 1%nat.
Proof.
  destruct f as [[f0 f1] f2]. unfold obj_face.
  rewrite !count_endl_append, !count_endl_to_string. reflexivity.
Qed.

Lemma count_endl_obj_vertex W (p : gp_Pnt) :
  (forall d, count_endl (show_double W d) = 0%nat) ->
  count_endl (obj_vertex W p) = 1%nat.
Proof.
  intros Hshow. unfold obj_vertex.
  rewrite !count_endl_append, !Hshow. reflexivity.
Qed.

Lemma count_endl_lines {A : Type} (line : A -> string) (items : list A) :
  (forall x, count_endl (line x) = 1%nat) ->
  count_endl (fold_right String.append "" (map line items)) = length items.
Proof.
  intros Hline. induction items as [| x rest IH]; cbn [fold_right map length];
    [reflexivity |].
  rewrite count_endl_append, Hline, IH. reflexivity.
Qed.

Lemma count_endl_export_text W (vertices : list gp_Pnt) (triangles : list (Z * Z * Z)) :
  (forall d, count_endl (show_double W d) = 0%nat) ->
  count_endl (export_text W vertices triangles)
  = (1 + length vertices + length triangles)%nat.
Proof.
  intros Hshow. unfold export_text.
  rewrite !count_endl_append.
  rewrite (count_endl_lines (obj_vertex W))
    by (intros p; apply count_endl_obj_vertex; exact Hshow).
  rewrite (count_endl_lines obj_face) by apply count_endl_obj_face.
  reflexivity.
Qed.

(** Every triangle of the export names positions of the vertex list. *)
Lemma export_triangles_within W (faces : list Face) (offset : Z) :
  0 <= offset ->
  Forall (face_in_range W) faces ->
  Forall (triangle_within offset
            (offset + Z.of_nat (length (export_vertices W faces))))
    (export_triangles W faces offset).
Proof.
  intros Hoff Hall. revert offset Hoff.
  induction Hall as [| face rest Hface Hall IH]; intros offset Hoff;
    cbn [export_triangles].
  - constructor.
  - rewrite export_vertices_cons, length_app. apply Forall_app. split.
    + unfold face_in_range, face_triangles, face_vertices in *.
      destruct (BRep_Tool_Triangulation W face) as [[tri tr] |]; [| constructor].
      apply Forall_map. eapply Forall_impl; [exact Hface |].
      intros [[n1 n2] n3]. unfold triangle_within, NbNodes. cbn.
      rewrite length_map. lia.
    + eapply Forall_impl; [apply IH; lia |].
      intros [[g1 g2] g3]. unfold triangle_within. lia.
Qed.

(** A node of a face is found in the vertex list behind the vertices of the
    faces before it. *)
Lemma export_vertices_lookup W (before after : list Face) (face : Face) (i : nat) :
  (i < length (face_vertices W face))%nat ->
  export_vertices W (before ++ face :: after)
    !! (length (export_vertices W before) + i)%nat
  = face_vertices W face !! i.
Proof.
  intros Hi. unfold export_vertices.
  rewrite map_app, concat_app. cbn [map concat].
  rewrite lookup_app_r by lia.
  replace (length (concat (map (face_vertices W) before)) + i
           - length (concat (map (face_vertices W) before)))%nat with i by lia.
  rewrite lookup_app_l by exact Hi. reflexivity.
Qed.

Lemma export_triangles_app W (before after : list Face) (offset : Z) :
  export_triangles W (before ++ after) offset
  = export_triangles W before offset
      ++ export_triangles W after
           (offset + Z.of_nat (length (export_vertices W before))).
Proof.
  revert offset. induction before as [| face rest IH]; intros offset;
    cbn [app export_triangles].
  - cbn. rewrite Z.add_0_r. reflexivity.
  - rewrite IH, export_vertices_cons, length_app, Nat2Z.inj_add, Z.add_assoc,
      <- app_assoc.
    reflexivity.
Qed.

Lemma export_vertices_length W (faces : list Face) :
  length (export_vertices W faces)
  = sum_list_with (fun face => length (face_vertices W face)) faces.
Proof.
  induction faces as [| face rest IH]; [reflexivity |].
  rewrite export_vertices_cons, length_app, IH. reflexivity.
Qed.

Lemma export_triangles_length W (faces : list Face) (offset : Z) :
  length (export_triangles W faces offset)
  = sum_list_with (fun face => length (face_triangles W face)) faces.
Proof.
  revert offset. induction faces as [| face rest IH]; intros offset; [reflexivity |].
  cbn [export_triangles sum_list_with]. rewrite length_app, length_map, IH. reflexivity.
Qed.

Lemma list_byte_of_string_length (str : string) :
  length (list_byte_of_string str) = String.length str.
Proof.
  induction str as [| ch rest IH]; [reflexivity |].
  change (list_byte_of_string (String ch rest))
    with (byte_of_ascii ch :: list_byte_of_string rest).
  cbn [length String.length]. rewrite IH. reflexivity.
Qed.


(** *** Case analysis of a call, with a tactic for the leaves *)

(** Every path through an operation, up to the calls into the world, with a
    tactic for the leaves.  On the paths of [occt_load_from_memory] past
    [write_temp_file] the counter has been advanced once. *)
Ltac load_cases W s leaf :=
  unfold occt_load_from_memory;
  match goal with |- context [match ?data with Some _ => _ | None => _ end] =>
    destruct data as [? |]; [| leaf] end;
  match goal with |- context [?len =? 0] => destruct (Z.eqb_spec len 0); [leaf |] end;
  unfold write_temp_file; cbv [fetch_add]; cbv iota beta;
  match goal with |- context [ofstream_open W ?tmp] =>
    destruct (ofstream_open W tmp) eqn:?; [| leaf] end;
  rewrite upload_path_not_empty; unfold load_try;
  kernel_case; [| leaf | leaf];
  match goal with |- context [is_RetDone ?st] => destruct (is_RetDone st) end;
  [ kernel_case; [| leaf | leaf];
    match goal with |- context [?roots =? 0] => destruct (roots =? 0); [leaf |] end;
    match goal with |- context [STEP_OneShape W ?tmp ?file] =>
      destruct (STEP_OneShape W tmp file) as [? | [? |]] eqn:?; [| leaf | leaf] end;
    match goal with |- context [IsNull W ?sh] => destruct (IsNull W sh) eqn:? end; leaf
  | kernel_case; [| leaf | leaf];
    match goal with |- context [is_RetDone ?st] => destruct (is_RetDone st); [| leaf] end;
    kernel_case; [| leaf | leaf];
    match goal with |- context [?roots =? 0] => destruct (roots =? 0); [leaf |] end;
    match goal with |- context [IGES_OneShape W ?tmp ?file] =>
      destruct (IGES_OneShape W tmp file) as [? | [? |]] eqn:?; [| leaf | leaf] end;
    match goal with |- context [IsNull W ?sh] => destruct (IsNull W sh) eqn:? end; leaf ].

Ltac emit_cases leaf :=
  unfold emit_buffer; cbv zeta;
  match goal with |- context [?p =? 0] => destruct (Z.eqb_spec p 0) end; leaf.

Ltac export_cases W s leaf :=
  unfold occt_export_step;
  match goal with |- context [match ?ob with Some _ => _ | None => _ end] =>
    destruct ob as [? |]; [| leaf] end;
  match goal with |- context [match ?ol with Some _ => _ | None => _ end] =>
    destruct ol as [? |]; [| leaf] end;
  match goal with |- context [shape_registry s !! ?h] =>
    destruct (shape_registry s !! h) as [? |] eqn:?; [| leaf] end;
  unfold export_try;
  kernel_case; [| leaf | leaf];
  match goal with |- context [is_RetDone ?st] => destruct (is_RetDone st); [| leaf] end;
  cbn [negb];
  kernel_case; [| leaf | leaf];
  match goal with |- context [is_RetDone ?st] => destruct (is_RetDone st); [| leaf] end;
  cbn [negb];
  match goal with |- context [ifstream_open W ?tmp] =>
    destruct (ifstream_open W tmp); [| leaf] end;
  cbn [negb];
  kernel_case; [| leaf | leaf];
  match goal with |- context [ifstream_read W ?tmp ?size] =>
    destruct (ifstream_read W tmp size) as [? |] eqn:?; [| leaf] end;
  emit_cases leaf.

Ltac bounds_cases W s leaf :=
  unfold occt_get_bounds;
  match goal with |- context [shape_registry s !! ?h] =>
    destruct (shape_registry s !! h) as [? |] eqn:?; [| leaf] end;
  match goal with |- context [Bnd_Box_Get W ?sh] =>
    destruct (Bnd_Box_Get W sh) as [? | [? |]] eqn:? end; leaf.

Ltac boolean_cases W s leaf :=
  unfold occt_boolean;
  match goal with |- context [shape_registry s !! ?h] =>
    destruct (shape_registry s !! h) as [? |] eqn:?; [| leaf] end;
  match goal with |- context [shape_registry s !! ?h] =>
    destruct (shape_registry s !! h) as [? |] eqn:?; [| leaf] end;
  unfold boolean_try;
  match goal with |- context [if ?b then _ else _] => destruct b eqn:? end;
  [ match goal with |- context [BRepAlgoAPI_Fuse W ?a ?b ?t] =>
      destruct (BRepAlgoAPI_Fuse W a b t) as [[? |] | [? |]] eqn:? end; leaf
  | match goal with |- context [if ?b then _ else _] => destruct b eqn:? end;
    [ match goal with |- context [BRepAlgoAPI_Cut W ?a ?b ?t] =>
        destruct (BRepAlgoAPI_Cut W a b t) as [[? |] | [? |]] eqn:? end; leaf
    | match goal with |- context [if ?b then _ else _] => destruct b eqn:?; [| leaf] end;
      match goal with |- context [BRepAlgoAPI_Common W ?a ?b ?t] =>
        destruct (BRepAlgoAPI_Common W a b t) as [[? |] | [? |]] eqn:? end; leaf ] ].

Ltac fillet_cases s leaf :=
  unfold occt_fillet;
  match goal with |- context [shape_registry s !! ?h] =>
    destruct (shape_registry s !! h) as [? |] eqn:? end; leaf.

Ltac mesh_cases W s leaf :=
  unfold occt_generate_mesh_obj;
  match goal with |- context [match ?ob with Some _ => _ | None => _ end] =>
    destruct ob as [? |]; [| leaf] end;
  match goal with |- context [match ?ol with Some _ => _ | None => _ end] =>
    destruct ol as [? |]; [| leaf] end;
  match goal with |- context [shape_registry s !! ?h] =>
    destruct (shape_registry s !! h) as [? |] eqn:?; [| leaf] end;
  unfold mesh_try; cbv zeta;
  kernel_case; [| leaf | leaf];
  match goal with |- context [mesh_faces W ?fs [] []] =>
    destruct (mesh_faces W fs [] []) as [[? ?] |] eqn:?; [| leaf] end;
  emit_cases leaf.

Ltac release_cases s leaf :=
  unfold occt_release_handle;
  match goal with |- context [shape_registry s !! ?h] =>
    destruct (shape_registry s !! h) as [? |] eqn:? end; leaf.

Ltac call_cases W c s leaf :=
  destruct c; cbn [exec];
  [ unfold occt_init; leaf
  | load_cases W s leaf
  | export_cases W s leaf
  | bounds_cases W s leaf
  | boolean_cases W s leaf
  | fillet_cases s leaf
  | mesh_cases W s leaf
  | release_cases s leaf ].

(** What one call does to the registry: nothing, one insertion under the
    handle it returns, or (for a release) one deletion. *)
Lemma exec_registry W (c : call) e n s :
  shape_registry (post (exec W c e n s)) = shape_registry s \/
  (exists (h : Z) (shape : Shape),
     returns_handle c = true /\ ret (exec W c e n s) = Returns h /\
     (h = next_handle s \/ h = uint64_wrap (next_handle s + 1)) /\
     shape_registry (post (exec W c e n s)) = <[h := shape]> (shape_registry s)) \/
  (exists h : Z,
     c = ReleaseHandle h /\ ret (exec W c e n s) = Returns 1 /\
     shape_registry (post (exec W c e n s)) = delete h (shape_registry s)).
Proof.
  call_cases W c s
    ltac:(cbv [with_cells fail register fetch_add set_registry];
          cbn [ret post err outs fst snd shape_registry next_handle heap];
          first
            [ left; reflexivity
            | right; left; eexists _, _;
              split; [reflexivity |]; split; [reflexivity |];
              split; [first [left; reflexivity | right; reflexivity] | reflexivity]
            | right; right; eexists; split; [reflexivity |];
              split; reflexivity ]).
Qed.

(** *** Entries of the registry along a run *)

Lemma exec_counter W (c : call) e n s :
  counter_ahead s -> next_handle s + 2 < 2 ^ 64 ->
  counter_ahead (post (exec W c e n s)) /\
  next_handle s <= next_handle (post (exec W c e n s)) <= next_handle s + 2.
Proof.
  intros Hahead Hroom.
  destruct (outcome_step s c e n _ _ Hahead Hroom (exec_outcome W c e n e n s))
    as (H1 & H2 & _).
  split; assumption.
Qed.

(** One call keeps every entry but the one it releases. *)
Lemma exec_keeps_entry W (c : call) e n s (k : Z) (shape : Shape) :
  counter_ahead s -> next_handle s + 2 < 2 ^ 64 ->
  shape_registry s !! k = Some shape ->
  c <> ReleaseHandle k ->
  shape_registry (post (exec W c e n s)) !! k = Some shape.
Proof.
  intros [Hcounter Hkeys] Hroom Hk Hc.
  assert (1 <= k < next_handle s) as Hlt by (apply Hkeys; eauto).
  destruct (exec_registry W c e n s)
    as [-> | [(h & shape' & _ & _ & Hh & ->) | (h & -> & _ & ->)]].
  - exact Hk.
  - rewrite lookup_insert_ne; [exact Hk |].
    destruct Hh as [-> | ->]; [lia |].
    rewrite uint64_wrap_small by lia. lia.
  - rewrite lookup_delete_ne; [exact Hk | congruence].
Qed.

(** One call registers nothing under a value the counter has passed. *)
Lemma exec_keeps_missing W (c : call) e n s (k : Z) :
  counter_ahead s -> next_handle s + 2 < 2 ^ 64 ->
  k < next_handle s ->
  shape_registry s !! k = None ->
  shape_registry (post (exec W c e n s)) !! k = None.
Proof.
  intros [Hcounter Hkeys] Hroom Hlt Hk.
  destruct (exec_registry W c e n s)
    as [-> | [(h & shape' & _ & _ & Hh & ->) | (h & -> & _ & ->)]].
  - exact Hk.
  - rewrite lookup_insert_ne; [exact Hk |].
    destruct Hh as [-> | ->]; [lia |].
    rewrite uint64_wrap_small by lia. lia.
  - destruct (decide (h = k)) as [-> | Hne].
    + apply lookup_delete_eq.
    + rewrite lookup_delete_ne by exact Hne. exact Hk.
Qed.

(** X1: A registered shape stays under its handle, the same shape, for as long as
    a run does not release that handle: no call overwrites or drops an entry
    of the registry.  (Runs that do not exhaust the 64-bit counter.) *)
Theorem registered_shape_persists (evs : list (@event Shape Face Trsf)) s s' (hs : list Z)
    (k : Z) (shape : Shape) :
  counter_ahead s ->
  next_handle s + 2 * Z.of_nat (length evs) < 2 ^ 64 ->
  shape_registry s !! k = Some shape ->
  Forall (fun ev => releases k ev = false) evs ->
  run evs s = (s', hs) ->
  shape_registry s' !! k = Some shape.
Proof.
  revert s s' hs.
  induction evs as [| ev rest IH]; intros s s' hs Hahead Hroom Hk Hnone Hrun.
  - cbn in Hrun. injection Hrun as <- _. exact Hk.
  - apply Forall_cons in Hnone as [Hev Hnone]. cbn [length] in Hroom.
    destruct ev as [W c e n | buf]; cbn [run] in Hrun.
    + assert (c <> ReleaseHandle k) as Hc.
      { intros ->. cbn in Hev. rewrite Z.eqb_refl in Hev. discriminate Hev. }
      destruct (exec_counter W c e n s Hahead ltac:(lia)) as [Hahead1 Hnext1].
      pose proof (exec_keeps_entry W c e n s k shape Hahead ltac:(lia) Hk Hc) as Hk1.
      cbn zeta in Hrun.
      destruct (ret (exec W c e n s)) as [v | x |].
      * destruct (run rest (post (exec W c e n s))) as [s2 hs2] eqn:Hrun2.
        injection Hrun as <- _.
        apply (IH _ _ _ Hahead1 ltac:(lia) Hk1 Hnone Hrun2).
      * destruct (run rest (post (exec W c e n s))) as [s2 hs2] eqn:Hrun2.
        injection Hrun as <- _.
        apply (IH _ _ _ Hahead1 ltac:(lia) Hk1 Hnone Hrun2).
      * injection Hrun as <- _. exact Hk1.
    + destruct (free_buffer_step buf s) as [Hreg Hnext].
      destruct (occt_free_buffer buf s) as [r s1]. cbn [snd] in Hreg, Hnext.
      assert (counter_ahead s1) as Hahead1
        by (unfold counter_ahead; rewrite Hreg, Hnext; exact Hahead).
      assert (shape_registry s1 !! k = Some shape) as Hk1 by (rewrite Hreg; exact Hk).
      destruct r as [u | x |].
      * apply (IH _ _ _ Hahead1 ltac:(lia) Hk1 Hnone Hrun).
      * injection Hrun as <- _. exact Hk1.
      * injection Hrun as <- _. exact Hk1.
Qed.

(** X2: A value below the counter that is not registered (a released handle, the
    name of a temporary file, 0) is never registered again, whatever the run
    does: handles are not reused.  (Runs that do not exhaust the counter.) *)
Theorem stale_handle_stays_stale (evs : list (@event Shape Face Trsf)) s s' (hs : list Z)
    (k : Z) :
  counter_ahead s ->
  next_handle s + 2 * Z.of_nat (length evs) < 2 ^ 64 ->
  k < next_handle s ->
  shape_registry s !! k = None ->
  run evs s = (s', hs) ->
  shape_registry s' !! k = None.
Proof.
  revert s s' hs.
  induction evs as [| ev rest IH]; intros s s' hs Hahead Hroom Hlt Hk Hrun.
  - cbn in Hrun. injection Hrun as <- _. exact Hk.
  - cbn [length] in Hroom.
    destruct ev as [W c e n | buf]; cbn [run] in Hrun.
    + destruct (exec_counter W c e n s Hahead ltac:(lia)) as [Hahead1 Hnext1].
      pose proof (exec_keeps_missing W c e n s k Hahead ltac:(lia) Hlt Hk) as Hk1.
      cbn zeta in Hrun.
      destruct (ret (exec W c e n s)) as [v | x |].
      * destruct (run rest (post (exec W c e n s))) as [s2 hs2] eqn:Hrun2.
        injection Hrun as <- _.
        apply (IH _ _ _ Hahead1 ltac:(lia) ltac:(lia) Hk1 Hrun2).
      * destruct (run rest (post (exec W c e n s))) as [s2 hs2] eqn:Hrun2.
        injection Hrun as <- _.
        apply (IH _ _ _ Hahead1 ltac:(lia) ltac:(lia) Hk1 Hrun2).
      * injection Hrun as <- _. exact Hk1.
    + destruct (free_buffer_step buf s) as [Hreg Hnext].
      destruct (occt_free_buffer buf s) as [r s1]. cbn [snd] in Hreg, Hnext.
      assert (counter_ahead s1) as Hahead1
        by (unfold counter_ahead; rewrite Hreg, Hnext; exact Hahead).
      assert (shape_registry s1 !! k = None) as Hk1 by (rewrite Hreg; exact Hk).
      destruct r as [u | x |].
      * apply (IH _ _ _ Hahead1 ltac:(lia) ltac:(lia) Hk1 Hrun).
      * injection Hrun as <- _. exact Hk1.
      * injection Hrun as <- _. exact Hk1.
Qed.

(** *** A handle that is not registered *)

(** X3: Every operation that takes a handle answers an unregistered one with 0
    and its own "not found" diagnostic, in every world, leaving the state and
    the caller's cells as they were: the kernel is not consulted.
    [occt_boolean] does so when either of its two handles is unregistered. *)
Theorem unregistered_handle_fails W (h other : Z) (op : option string)
    (deflection radius tolerance : float) (linear_deflection edge_count : Z)
    (edge_ids : option (list Z)) (b l : Z)
    (minx miny minz maxx maxy maxz : option float) out_error err_len s :
  shape_registry s !! h = None ->
  occt_export_step W h (Some b) (Some l) out_error err_len s
  = fail "handle not found" out_error err_len s (Some b, Some l) /\
  occt_get_bounds W h minx miny minz maxx maxy maxz out_error err_len s
  = fail "handle not found" out_error err_len s [minx; miny; minz; maxx; maxy; maxz] /\
  occt_boolean W h other op tolerance out_error err_len s
  = fail "target or tool handle not found" out_error err_len s tt /\
  occt_boolean W other h op tolerance out_error err_len s
  = fail "target or tool handle not found" out_error err_len s tt /\
  occt_fillet h edge_ids edge_count radius tolerance out_error err_len s
  = fail "target handle not found" out_error err_len s tt /\
  occt_generate_mesh_obj W h deflection linear_deflection (Some b) (Some l)
    out_error err_len s
  = fail "handle not found" out_error err_len s (Some b, Some l) /\
  occt_release_handle h out_error err_len s
  = fail "handle not found" out_error err_len s tt.
Proof.
  intros Hh.
  unfold occt_export_step, occt_get_bounds, occt_boolean, occt_fillet,
    occt_generate_mesh_obj, occt_release_handle.
  rewrite Hh.
  repeat split; try reflexivity.
  destruct (shape_registry s !! other); reflexivity.
Qed.

(** *** Bounds *)

(** X4: [occt_get_bounds] is a query: it never changes the state; when it returns
    1 the error buffer is untouched and each of the six cells the caller
    passed holds the matching value of the kernel's box for the registered
    shape, while a null pointer is skipped; when it does not return 1 the
    cells are as before. *)
Theorem get_bounds_is_a_query W (handle : Z)
    (minx miny minz maxx maxy maxz : option float) out_error err_len s :
  let r := occt_get_bounds W handle minx miny minz maxx maxy maxz out_error err_len s in
  post r = s /\
  (ret r <> Returns 1 -> outs r = [minx; miny; minz; maxx; maxy; maxz]) /\
  (ret r = Returns 1 ->
   err r = out_error /\
   exists shape box,
     shape_registry s !! handle = Some shape /\
     Bnd_Box_Get W shape = Done box /\
     outs r = store_box box minx miny minz maxx maxy maxz).
Proof.
  cbn zeta. unfold occt_get_bounds.
  destruct (shape_registry s !! handle) as [shape |].
  - destruct (Bnd_Box_Get W shape) as [box | [what |]] eqn:Hbox; cbn.
    + split; [reflexivity |]. split; [intros Hne; exfalso; apply Hne; reflexivity |].
      intros _. split; [reflexivity |]. exists shape, box.
      split; [reflexivity |]. split; [exact Hbox | reflexivity].
    + split; [reflexivity |]. split; [intros _; reflexivity | discriminate].
    + split; [reflexivity |]. split; [intros _; reflexivity | discriminate].
  - cbn. split; [reflexivity |]. split; [intros _; reflexivity | discriminate].
Qed.

(** *** Loading *)

(** X5: What [occt_load_from_memory] can do (short of exhausting the counter).
    It always returns, having caught every exception, and never touches the
    heap.  Either it returns 0, the registry is as before and the counter has
    moved by at most the one value that names the temporary file; or it
    returns the handle [next_handle s + 1], under which it has registered a
    shape that is not null and that the STEP or the IGES reader made from the
    first [len] bytes of the data, written to a file named after the counter
    and the file name; the counter is then two further and the error buffer
    untouched. *)
Theorem load_outcome W (filename : option string) (data : option (list byte))
    (len : Z) out_error err_len s :
  0 <= next_handle s -> next_handle s + 2 < 2 ^ 64 ->
  let r := occt_load_from_memory W filename data len out_error err_len s in
  heap (post r) = heap s /\
  ((ret r = Returns 0 /\
    shape_registry (post r) = shape_registry s /\
    (next_handle (post r) = next_handle s \/
     next_handle (post r) = next_handle s + 1)) \/
   (exists bytes shape,
      data = Some bytes /\ len <> 0 /\
      let h := next_handle s + 1 in
      let tmp := "/tmp/occt_upload_" +:+ to_string (next_handle s) +:+ "_"
                   +:+ default "upload" filename in
      let file := take (Z.to_nat len) bytes in
      ret r = Returns h /\
      ofstream_open W tmp = true /\
      (STEP_OneShape W tmp file = Done shape \/ IGES_OneShape W tmp file = Done shape) /\
      IsNull W shape = false /\
      shape_registry (post r) = <[h := shape]> (shape_registry s) /\
      next_handle (post r) = next_handle s + 2 /\
      err r = out_error)).
Proof.
  intros Hpos Hroom.
  assert (uint64_wrap (next_handle s + 1) = next_handle s + 1) as Hw1
    by (apply uint64_wrap_small; lia).
  assert (uint64_wrap (next_handle s + 1 + 1) = next_handle s + 2) as Hw2
    by (rewrite uint64_wrap_small; lia).
  cbn zeta.
  load_cases W s
    ltac:(cbv [fail register fetch_add set_registry];
          cbn [ret post err outs fst snd shape_registry next_handle heap];
          rewrite ?Hw1, ?Hw2;
          split; [reflexivity |];
          first
            [ left; split; [reflexivity |]; split; [reflexivity |];
              first [left; reflexivity | right; reflexivity]
            | right; eexists _, _;
              split; [reflexivity |]; split; [assumption |];
              split; [reflexivity |];
              split; [first [eassumption | reflexivity] |];
              split; [first [left; first [eassumption | reflexivity]
                            | right; first [eassumption | reflexivity]] |];
              split; [first [eassumption | reflexivity] |];
              split; [reflexivity |]; split; reflexivity ]).
Qed.

(** *** Exceptions at the boundary *)

(** X6: No [std::exception] leaves the wrapper.  A call that ends by an exception
    is an export, a bounds query, a boolean operation or a mesh export in
    which the world has thrown something that is not a [std::exception]; the
    state and the error buffer are then as before the call.  Undefined
    behaviour arises in the mesh export only. *)
Theorem exceptions_at_the_boundary W (c : call) e n s :
  match ret (exec W c e n s) with
  | Returns _ => True
  | Propagates x =>
    x = other_exception /\ post (exec W c e n s) = s /\ err (exec W c e n s) = e /\
    match c with
    | ExportStep _ _ _ | GetBounds _ _ _ _ _ _ _ | Boolean _ _ _ _
    | GenerateMeshObj _ _ _ _ _ => True
    | _ => False
    end
  | Undefined =>
    post (exec W c e n s) = s /\ err (exec W c e n s) = e /\
    match c with GenerateMeshObj _ _ _ _ _ => True | _ => False end
  end.
Proof.
  call_cases W c s
    ltac:(cbv [with_cells fail register fetch_add set_registry];
          cbn [ret post err outs fst snd];
          first [exact I | repeat split; reflexivity]).
Qed.

(** *** Boolean operations that the kernel carries out *)

(** X7: With both handles registered and a known operation name, [occt_boolean]
    hands the two shapes and the tolerance, unchanged, to the algorithm the
    name selects.  A shape the algorithm delivers is registered under the
    value of the counter, which is returned; the entries of the two inputs
    stay as they are.  An algorithm that is not done gives 0 and its own
    diagnostic, a [std::exception] gives 0 and "boolean exception: " with
    its text, and any other exception leaves the function. *)
Theorem boolean_outcome W (target tool : Z) (op : option string) (tolerance : float)
    out_error err_len s (Ta Ua : Shape)
    (algorithm : Shape -> Shape -> float -> kres (option Shape)) (msg : string) :
  counter_ahead s ->
  shape_registry s !! target = Some Ta ->
  shape_registry s !! tool = Some Ua ->
  boolean_dispatch W (default "" op) = Some (algorithm, msg) ->
  let r := occt_boolean W target tool op tolerance out_error err_len s in
  match algorithm Ta Ua tolerance with
  | Done (Some shape) =>
    ret r = Returns (next_handle s) /\
    shape_registry (post r) = <[next_handle s := shape]> (shape_registry s) /\
    shape_registry (post r) !! target = Some Ta /\
    shape_registry (post r) !! tool = Some Ua /\
    next_handle (post r) = uint64_wrap (next_handle s + 1) /\
    heap (post r) = heap s /\
    err r = out_error
  | Done None => r = fail msg out_error err_len s tt
  | Raised (std_exception what) =>
    r = fail ("boolean exception: " +:+ what) out_error err_len s tt
  | Raised other_exception => r = mk_result (Propagates other_exception) s out_error tt
  end.
Proof.
  intros [Hcounter Hkeys] HT HU Hdispatch r. subst r.
  assert (1 <= target < next_handle s) as HltT by (apply Hkeys; eauto).
  assert (1 <= tool < next_handle s) as HltU by (apply Hkeys; eauto).
  unfold occt_boolean. rewrite HT, HU.
  unfold boolean_dispatch in Hdispatch. unfold boolean_try.
  destruct (String.eqb (default "" op) "union" || String.eqb (default "" op) "fuse");
    [| destruct (String.eqb (default "" op) "cut");
       [| destruct (String.eqb (default "" op) "common"
                    || String.eqb (default "" op) "intersect");
          [| discriminate Hdispatch]]];
    injection Hdispatch as <- <-;
    match goal with
    | |- context [match ?alg Ta Ua tolerance with _ => _ end] =>
      destruct (alg Ta Ua tolerance) as [[shape |] | [what |]]
    end;
    try reflexivity;
    rewrite register_eq; cbn;
    (split; [reflexivity |]; split; [reflexivity |];
     split; [rewrite lookup_insert_ne by lia; exact HT |];
     split; [rewrite lookup_insert_ne by lia; exact HU |];
     repeat split; reflexivity).
Qed.

(** *** Buffers handed to the caller *)

Lemma successful_export W (handle : Z) (deflection : float) (linear_deflection : Z)
    (out_buf out_len : option Z) out_error err_len s
    (r : result Z (option Z * option Z)) :
  r = occt_export_step W handle out_buf out_len out_error err_len s \/
  r = occt_generate_mesh_obj W handle deflection linear_deflection out_buf out_len
        out_error err_len s ->
  ret r = Returns 1 ->
  exists (p len : Z) (content : list byte),
    p <> 0 /\ p = malloc W (heap s) len /\
    r = mk_result (Returns 1)
          (mk_state (shape_registry s) (next_handle s) (<[p := content]> (heap s)))
          out_error (Some p, Some len) /\
    Z.of_nat (length content) <= len.
Proof.
  assert (forall (bytes : list byte) (z : Z),
            Z.of_nat (length (take (Z.to_nat (uint64_wrap z)) bytes)) <= uint64_wrap z)
    as Hfits.
  { intros bytes z. rewrite length_take. unfold uint64_wrap.
    pose proof (Z.mod_pos_bound z (2 ^ 64) ltac:(lia)). lia. }
  intros [-> | ->].
  - export_cases W s
      ltac:(cbv [fail]; cbn [ret]; intros Hret;
            first [discriminate Hret
                  | eexists _, _, _; split; [eassumption |];
                    split; [reflexivity |]; split; [reflexivity | apply Hfits]]).
  - mesh_cases W s
      ltac:(cbv [fail]; cbn [ret]; intros Hret;
            first [discriminate Hret
                  | eexists _, _, _; split; [eassumption |];
                    split; [reflexivity |]; split; [reflexivity | apply Hfits]]).
Qed.

(** X8: When [occt_export_step] or [occt_generate_mesh_obj] returns 1, the heap
    has gained one buffer, at the address [malloc] returned, which is not
    null and is stored through [out_buf]; the length stored through
    [out_len] is the length asked of [malloc] and the content fits in it;
    the registry, the counter and the error buffer are untouched. *)
Theorem export_hands_over_one_buffer W (handle : Z) (deflection : float)
    (linear_deflection : Z) (out_buf out_len : option Z) out_error err_len s
    (r : result Z (option Z * option Z)) :
  r = occt_export_step W handle out_buf out_len out_error err_len s \/
  r = occt_generate_mesh_obj W handle deflection linear_deflection out_buf out_len
        out_error err_len s ->
  ret r = Returns 1 ->
  exists (p len : Z) (content : list byte),
    p <> 0 /\ p = malloc W (heap s) len /\
    outs r = (Some p, Some len) /\
    heap (post r) = <[p := content]> (heap s) /\
    Z.of_nat (length content) <= len /\
    shape_registry (post r) = shape_registry s /\
    next_handle (post r) = next_handle s /\
    err r = out_error.
Proof.
  intros Hr Hret.
  destruct (successful_export W handle deflection linear_deflection out_buf out_len
              out_error err_len s r Hr Hret) as (p & len & content & Hp & Hm & -> & Hlen).
  exists p, len, content. cbn. repeat split; assumption || reflexivity.
Qed.

(** X9: Export, then free: when the address [malloc] gave was not in use, passing
    the buffer of a successful export to [occt_free_buffer] brings back the
    state from before the export; freeing it once more is undefined.
    Freeing the null pointer does nothing. *)
Theorem export_then_free W (handle : Z) (deflection : float)
    (linear_deflection : Z) (out_buf out_len : option Z) out_error err_len s
    (r : result Z (option Z * option Z)) (p len : Z) :
  r = occt_export_step W handle out_buf out_len out_error err_len s \/
  r = occt_generate_mesh_obj W handle deflection linear_deflection out_buf out_len
        out_error err_len s ->
  ret r = Returns 1 ->
  outs r = (Some p, Some len) ->
  heap s !! p = None ->
  occt_free_buffer p (post r) = (Returns tt, s) /\
  occt_free_buffer p s = (Undefined, s) /\
  occt_free_buffer 0 (post r) = (Returns tt, post r).
Proof.
  intros Hr Hret Houts Hfresh.
  destruct (successful_export W handle deflection linear_deflection out_buf out_len
              out_error err_len s r Hr Hret)
    as (p' & len' & content & Hp & Hm & -> & Hlen).
  cbn in Houts. injection Houts as -> ->.
  unfold occt_free_buffer. cbn.
  destruct (Z.eqb_spec p 0) as [Hz | _]; [contradiction |].
  rewrite lookup_insert_eq, Hfresh, delete_insert_id by exact Hfresh.
  destruct s; cbn. repeat split; reflexivity.
Qed.

(** *** What [write_error] stores *)

Lemma c_str_no_NUL (msg : string) : NUL ∉ c_str msg.
Proof.
  induction msg as [| ch rest IH]; cbn.
  - apply not_elem_of_nil.
  - destruct (Ascii.eqb_spec ch NUL) as [-> | Hne]; [apply not_elem_of_nil |].
    intros Hin. apply elem_of_cons in Hin as [Heq | Hin]; [congruence | exact (IH Hin)].
Qed.

(** X10: With a buffer of at least [err_len > 0] characters, [write_error] writes
    inside the first [err_len] of them only: the buffer keeps its length and
    everything from position [err_len] on.  It then holds a C string that is
    the diagnostic cut at [err_len - 1] characters: the NUL stands at
    position [k], the smaller of the length of the diagnostic and
    [err_len - 1], and the [k] characters before it are those of the
    diagnostic, none of them NUL. *)
Theorem write_error_within_capacity (msg : string) (buf : list ascii) (err_len : Z) :
  0 < err_len -> err_len <= Z.of_nat (length buf) ->
  let k := Nat.min (length (c_str msg)) (Z.to_nat (err_len - 1)) in
  exists out : list ascii,
    write_error msg (Some buf) err_len = Some out /\
    length out = length buf /\
    drop (Z.to_nat err_len) out = drop (Z.to_nat err_len) buf /\
    out !! k = Some NUL /\
    take k out = take k (c_str msg) /\
    NUL ∉ take k out.
Proof.
  intros Hpos Hcap k.
  exists (snprintf buf err_len msg).
  split; [apply write_error_accepted; exact Hpos |].
  split; [apply snprintf_length; assumption |].
  assert (length (take (Z.to_nat (err_len - 1)) (c_str msg)) = k) as Hk
    by (rewrite length_take; unfold k; lia).
  assert (take (Z.to_nat (err_len - 1)) (c_str msg) = take k (c_str msg)) as Htake.
  { unfold k. destruct (Nat.min_spec (length (c_str msg)) (Z.to_nat (err_len - 1)))
      as [[Hlt ->] | [Hle ->]]; [| reflexivity].
    rewrite !take_ge by lia. reflexivity. }
  unfold snprintf, snprintf_text. rewrite length_app, Hk, Htake. cbn [length].
  assert (length (take k (c_str msg)) = k) as Hk' by (rewrite <- Htake; exact Hk).
  split.
  { rewrite drop_app_ge by (rewrite length_app, Hk'; cbn; unfold k; lia).
    rewrite length_app, Hk'. cbn [length]. rewrite drop_drop. f_equal.
    unfold k. lia. }
  split.
  { rewrite <- app_assoc. rewrite lookup_app_r by lia.
    rewrite Hk', Nat.sub_diag. reflexivity. }
  split.
  { rewrite <- app_assoc. rewrite take_app_le by lia.
    rewrite take_ge by lia. reflexivity. }
  rewrite <- app_assoc. rewrite take_app_le by lia. rewrite take_ge by lia.
  intros Hin. apply elem_of_take in Hin as (i & Hin & _).
  apply (c_str_no_NUL msg). apply list_elem_of_lookup. eauto.
Qed.

(** *** The deflection of the mesh *)

(** X11: A deflection that is not greater than zero (zero, a negative number or
    a NaN) is replaced by 0.1: the mesh export is the one for the deflection
    0.1. *)
Theorem mesh_default_deflection W (handle : Z) (deflection : float)
    (linear_deflection : Z) (out_buf out_len : option Z) out_error err_len s :
  PrimFloat.ltb 0 deflection = false ->
  occt_generate_mesh_obj W handle deflection linear_deflection out_buf out_len
    out_error err_len s
  = occt_generate_mesh_obj W handle double_0_1 linear_deflection out_buf out_len
      out_error err_len s.
Proof.
  intros Hle. unfold occt_generate_mesh_obj, mesh_try. cbn zeta. rewrite Hle.
  change (PrimFloat.ltb 0 double_0_1) with true. cbn iota. reflexivity.
Qed.

(** *** The face loop on any triangulation *)

Lemma mesh_nodes_length W (tr : Trsf) (nodes : list gp_Pnt) (ni : nat)
    (global_vertices : list gp_Pnt) (localToGlobal : list Z) :
  length (mesh_nodes W tr nodes ni global_vertices localToGlobal).2
  = length localToGlobal.
Proof.
  revert ni global_vertices localToGlobal.
  induction nodes as [| p rest IH]; intros ni gv l2g; cbn [mesh_nodes]; [reflexivity |].
  rewrite IH, length_insert. reflexivity.
Qed.

(** The triangle loop, when it reads inside the vector only: the triangles
    that name the node 0 are passed over, the others name nodes of the face
    and are appended with their numbers moved up. *)
Lemma mesh_triangles_defined (triangles : list (Z * Z * Z)) (localToGlobal : list Z)
    (global_faces global_faces' : list (Z * Z * Z)) (offset n : Z) :
  0 <= offset -> 0 <= n ->
  length localToGlobal = Z.to_nat (n + 1) ->
  localToGlobal !! 0%nat = Some (-1) ->
  (forall i, 0 < i <= n -> vector_at localToGlobal i = Some (offset + i)) ->
  mesh_triangles triangles localToGlobal global_faces = Some global_faces' ->
  global_faces'
  = global_faces
      ++ map (shift offset) (List.filter (fun t => negb (names_node_0 t)) triangles) /\
  Forall (triangle_within 0 n)
    (List.filter (fun t => negb (names_node_0 t)) triangles).
Proof.
  intros Hoff Hn Hlen Hzero Hat. revert global_faces.
  assert (forall i g, vector_at localToGlobal i = Some g ->
            (i = 0 /\ g = -1) \/ (0 < i <= n /\ g = offset + i)) as Hread.
  { intros i g Hg.
    assert (0 <= i <= n) as Hi.
    { unfold vector_at in Hg. destruct (Z.ltb_spec i 0); [discriminate Hg |].
      apply lookup_lt_Some in Hg. lia. }
    destruct (decide (i = 0)) as [-> | Hne].
    - left. change (localToGlobal !! 0%nat = Some g) in Hg.
      rewrite Hzero in Hg. injection Hg as <-. split; reflexivity.
    - right. split; [lia |]. rewrite Hat in Hg by lia. injection Hg as <-.
      reflexivity. }
  induction triangles as [| [[n1 n2] n3] rest IH]; intros gf Hrun;
    cbn [mesh_triangles] in Hrun.
  - injection Hrun as <-. cbn. rewrite app_nil_r. split; [reflexivity | constructor].
  - destruct (vector_at localToGlobal n1) as [g1 |] eqn:H1; [| discriminate Hrun].
    destruct (vector_at localToGlobal n2) as [g2 |] eqn:H2; [| discriminate Hrun].
    destruct (vector_at localToGlobal n3) as [g3 |] eqn:H3; [| discriminate Hrun].
    cbn in Hrun.
    apply Hread in H1, H2, H3.
    assert ((g1 <=? 0) || (g2 <=? 0) || (g3 <=? 0) = names_node_0 (n1, n2, n3)) as Htest.
    { unfold names_node_0.
      destruct H1 as [[-> ->] | [? ->]], H2 as [[-> ->] | [? ->]],
               H3 as [[-> ->] | [? ->]];
        repeat match goal with
               | |- context [?a <=? ?b] => destruct (Z.leb_spec a b); try lia
               | |- context [?a =? ?b] => destruct (Z.eqb_spec a b); try lia
               end; reflexivity. }
    rewrite Htest in Hrun. cbn [List.filter].
    destruct (names_node_0 (n1, n2, n3)) eqn:Hnames; cbn [negb].
    + apply IH. exact Hrun.
    + destruct (IH _ Hrun) as [-> Hrest]. cbn [map]. rewrite <- app_assoc. cbn [app].
      unfold names_node_0 in Hnames.
      destruct H1 as [[-> ->] | [? ->]]; [discriminate Hnames |].
      destruct H2 as [[-> ->] | [? ->]];
        [rewrite orb_true_r in Hnames; discriminate Hnames |].
      destruct H3 as [[-> ->] | [? ->]];
        [rewrite orb_true_r in Hnames; discriminate Hnames |].
      split; [reflexivity |].
      constructor; [| exact Hrest]. unfold triangle_within. lia.
Qed.

(** X12: The face loop of [occt_generate_mesh_obj] on whatever triangulations the
    kernel delivers, with no more vertices than an [int] counts.  When the
    loop ends without a read outside [localToGlobal], the vertex list is the
    concatenation of the vertex lists of the faces; the triangles written are
    those that do not name the node 0, which are passed over in silence; and
    every number written is the position of a vertex of the list: no line of
    the export refers to a vertex that is not there. *)
Theorem mesh_loop_on_any_triangulation W (faces : list Face)
    (global_vertices global_vertices' : list gp_Pnt)
    (global_faces global_faces' : list (Z * Z * Z)) :
  Z.of_nat (length global_vertices + length (export_vertices W faces)) <= INT_MAX ->
  mesh_faces W faces global_vertices global_faces
  = Some (global_vertices', global_faces') ->
  global_vertices' = global_vertices ++ export_vertices W faces /\
  global_faces'
  = global_faces
      ++ export_triangles_kept W faces (Z.of_nat (length global_vertices)) /\
  Forall (triangle_within (Z.of_nat (length global_vertices))
            (Z.of_nat (length global_vertices')))
    (export_triangles_kept W faces (Z.of_nat (length global_vertices))).
Proof.
  revert global_vertices global_faces.
  induction faces as [| face rest IH]; intros gv gf Hmax Hrun.
  - cbn in Hrun. injection Hrun as <- <-. cbn. rewrite !app_nil_r.
    repeat split; constructor.
  - rewrite export_vertices_cons, length_app in Hmax.
    cbn [mesh_faces] in Hrun. cbn [export_triangles_kept].
    rewrite export_vertices_cons.
    unfold face_vertices, face_triangles in *.
    destruct (BRep_Tool_Triangulation W face) as [[tri tr] |] eqn:Htri.
    + rewrite length_map in *.
      pose proof (mesh_nodes_vertices W tr (Nodes tri) 1 gv
                    (replicate (Z.to_nat (NbNodes tri + 1)) (-1))) as Hvs.
      pose proof (mesh_nodes_length W tr (Nodes tri) 1 gv
                    (replicate (Z.to_nat (NbNodes tri + 1)) (-1))) as Hlen.
      pose proof (fun i =>
                    mesh_nodes_lookup W tr (Nodes tri) 1 gv
                      (replicate (Z.to_nat (NbNodes tri + 1)) (-1)) i) as Hlook.
      destruct (mesh_nodes W tr (Nodes tri) 1 gv
                  (replicate (Z.to_nat (NbNodes tri + 1)) (-1)))
        as [gv1 l2g1]. cbn [fst snd] in Hvs, Hlen, Hlook. subst gv1.
      rewrite length_replicate in Hlen, Hlook. unfold NbNodes in *.
      destruct (mesh_triangles (Triangles tri) l2g1 gf) as [gf1 |] eqn:Htris;
        [| discriminate Hrun].
      cbn in Hrun.
      apply (mesh_triangles_defined _ _ _ _ (Z.of_nat (length gv))
               (Z.of_nat (length (Nodes tri)))) in Htris; try lia.
      * destruct Htris as [-> Hface].
        apply IH in Hrun; [| rewrite length_app, length_map; lia].
        destruct Hrun as (-> & -> & Hwithin).
        rewrite !length_app, !length_map, ?Nat2Z.inj_add in *.
        rewrite <- !app_assoc.
        split; [reflexivity |]. split; [reflexivity |].
        apply Forall_app. split.
        -- apply Forall_map. eapply Forall_impl; [exact Hface |].
           intros [[n1 n2] n3]. unfold triangle_within. cbn. lia.
        -- eapply Forall_impl; [exact Hwithin |].
           intros [[g1 g2] g3]. unfold triangle_within. lia.
      * rewrite Hlook by lia. rewrite decide_False by lia.
        apply lookup_replicate_2. lia.
      * intros i Hi. unfold vector_at. destruct (Z.ltb_spec i 0); [lia |].
        rewrite Hlook by lia. rewrite decide_True by lia.
        rewrite int_of_size_t_small by lia. f_equal. lia.
    + cbn [map List.filter app length] in *. rewrite Nat.add_0_l in Hmax.
      rewrite Z.add_0_r. apply IH; assumption.
Qed.

(** *** The names of the temporary files *)

Lemma to_string_inj (z1 z2 : Z) : to_string z1 = to_string z2 -> z1 = z2.
Proof.
  unfold to_string. intros Heq.
  assert (forall z, Z.to_int z <> Decimal.Pos Decimal.Nil /\
                    Z.to_int z <> Decimal.Neg Decimal.Nil) as Hnil.
  { intros [| p | p]; cbn; split; try discriminate;
      intros [= Hp]; exact (DecimalPos.Unsigned.to_uint_nonnil p Hp). }
  assert (Some (Z.to_int z1) = Some (Z.to_int z2)) as Hint.
  { rewrite <- (NilZero.isi (Z.to_int z1)) by apply Hnil.
    rewrite <- (NilZero.isi (Z.to_int z2)) by apply Hnil.
    rewrite Heq. reflexivity. }
  injection Hint as Hint.
  rewrite <- (DecimalZ.of_to z1), <- (DecimalZ.of_to z2), Hint. reflexivity.
Qed.

Lemma digits_no_underscore (d : Decimal.uint) :
  "_"%char ∉ list_ascii_of_string (NilEmpty.string_of_uint d).
Proof.
  induction d as [| d IH | d IH | d IH | d IH | d IH | d IH | d IH | d IH | d IH | d IH];
    cbn; [apply not_elem_of_nil | ..];
    (intros Hin; apply elem_of_cons in Hin as [Heq | Hin];
     [discriminate Heq | exact (IH Hin)]).
Qed.

Lemma to_string_no_underscore (z : Z) : "_"%char ∉ list_ascii_of_string (to_string z).
Proof.
  unfold to_string.
  assert (forall d, "_"%char ∉ list_ascii_of_string (NilZero.string_of_uint d)) as Hu.
  { intros d. destruct d; try apply (digits_no_underscore (_ d)).
    cbn. intros Hin. apply elem_of_cons in Hin as [Heq | Hin]; [discriminate Heq |].
    apply not_elem_of_nil in Hin. exact Hin. }
  destruct (Z.to_int z) as [d | d]; cbn; [apply Hu |].
  intros Hin. apply elem_of_cons in Hin as [Heq | Hin]; [discriminate Heq |].
  exact (Hu d Hin).
Qed.

Lemma append_inj_r (a x y : string) : a +:+ x = a +:+ y -> x = y.
Proof.
  induction a as [| ch a IH]; [trivial |].
  rewrite !append_cons. intros [= Heq]. exact (IH Heq).
Qed.

(** Two texts without underscore that are followed by an underscore in the
    same text are equal. *)
Lemma before_underscore (a b x y : string) :
  "_"%char ∉ list_ascii_of_string a -> "_"%char ∉ list_ascii_of_string b ->
  a +:+ String "_" x = b +:+ String "_" y -> a = b.
Proof.
  revert b. induction a as [| ch a IH]; intros [| ch' b] Ha Hb Heq.
  - reflexivity.
  - exfalso. rewrite append_cons in Heq. cbn in Heq. injection Heq as <- _.
    apply Hb. cbn. left.
  - exfalso. rewrite append_cons in Heq. cbn in Heq. injection Heq as -> _.
    apply Ha. cbn. left.
  - rewrite !append_cons in Heq. injection Heq as -> Heq. f_equal.
    apply IH; [| | exact Heq].
    + intros Hin. apply Ha. cbn. right. exact Hin.
    + intros Hin. apply Hb. cbn. right. exact Hin.
Qed.

(** X13: Two calls of [write_temp_file] that see different values of the counter
    and both create their file use different paths, whatever the file names
    the callers gave: uploads do not overwrite each other. *)
Theorem upload_paths_distinct W1 W2 (filename1 filename2 : option string)
    (data1 data2 : list byte) (len1 len2 : Z) e1 n1 e2 n2 s1 s2 :
  next_handle s1 <> next_handle s2 ->
  let tmp1 := (write_temp_file W1 filename1 data1 len1 e1 n1 s1).1.1 in
  let tmp2 := (write_temp_file W2 filename2 data2 len2 e2 n2 s2).1.1 in
  tmp1 <> "" -> tmp2 <> "" -> tmp1 <> tmp2.
Proof.
  intros Hne tmp1 tmp2 H1 H2 Heq. subst tmp1 tmp2.
  unfold write_temp_file in *. cbv [fetch_add] in *. cbv iota beta in *.
  destruct (ofstream_open W1 _); [| apply H1; reflexivity].
  destruct (ofstream_open W2 _); [| apply H2; reflexivity].
  cbn [fst] in Heq. apply append_inj_r in Heq.
  apply Hne, to_string_inj.
  apply (before_underscore _ _ _ _ (to_string_no_underscore _)
           (to_string_no_underscore _) Heq).
Qed.

(** *** The heap *)

(** X17: The wrapper allocates in one place only: a call leaves the heap as it
    was, unless it is an export or a mesh export that returns 1, which adds
    the one buffer it hands over, at an address that is not null. *)
Theorem heap_changes_only_on_export W (c : call) e n s :
  heap (post (exec W c e n s)) = heap s \/
  (ret (exec W c e n s) = Returns 1 /\
   match c with
   | ExportStep _ (Some _) (Some _) | GenerateMeshObj _ _ _ (Some _) (Some _) => True
   | _ => False
   end /\
   exists (p : Z) (content : list byte),
     p <> 0 /\ heap (post (exec W c e n s)) = <[p := content]> (heap s)).
Proof.
  call_cases W c s
    ltac:(cbv [with_cells fail register fetch_add set_registry];
          cbn [ret post err outs fst snd shape_registry next_handle heap];
          first
            [ left; reflexivity
            | right; split; [reflexivity |]; split; [exact I |];
              eexists _, _; split; [eassumption | reflexivity] ]).
Qed.

(** *** The diagnostic of a call that returns 0 *)

Lemma diagnostic_not_empty (c : call) (msg : string) :
  diagnostic c msg -> c_str msg <> [].
Proof.
  intros [Hin | (prefix & what & Hprefix & ->)].
  - destruct c; cbn [diagnostics] in Hin;
      apply list_elem_of_In in Hin; cbn [In] in Hin;
      repeat (destruct Hin as [<- | Hin]; [vm_compute; discriminate |]);
      contradiction.
  - destruct c; cbn [exception_prefix] in Hprefix;
      first [discriminate Hprefix | injection Hprefix as <-];
      rewrite append_cons; cbn [c_str]; discriminate.
Qed.

Ltac diagnostic_table :=
  lazymatch goal with
  | |- diagnostic _ (String.append ?prefix ?what) =>
    right; exists prefix, what; split; reflexivity
  | |- _ =>
    left; cbn [diagnostics];
    repeat first [apply list_elem_of_here | apply list_elem_of_further]
  end.

(** A call that returns 0 has passed one entry of the table of its operation
    to [write_error], the same whatever error slot the caller gave. *)
Lemma exec_diagnostic W (c : call) e n s :
  1 <= next_handle s -> next_handle s + 1 < 2 ^ 64 ->
  ret (exec W c e n s) = Returns 0 ->
  exists msg : string,
    diagnostic c msg /\
    forall e' n', err (exec W c e' n' s) = write_error msg e' n'.
Proof.
  intros Hone Hroom.
  assert (uint64_wrap (next_handle s + 1) = next_handle s + 1) as Hw1
    by (apply uint64_wrap_small; lia).
  call_cases W c s
    ltac:(cbv [with_cells fail register fetch_add set_registry];
          cbn [ret post err outs fst snd next_handle];
          intros Hret;
          first
            [ discriminate Hret
            | exfalso; injection Hret as Hret; rewrite ?Hw1 in Hret; lia
            | eexists; split; [| intros ? ?; reflexivity]; diagnostic_table ]).
Qed.


End Properties.

(** ** Properties of the value facade *)

Section FacadeProperties.

Import Bindings.

Context {Shape Face Trsf Edge : Type}.
Implicit Types (W : @World Shape Face Trsf) (M : @Modeler Shape Trsf Edge).
Implicit Types (g geometry : @GeometryWrapper Shape).

(** The loop of [addFillet], started at [currentEdgeIndex], stops at the edge
    [edgeIndex - currentEdgeIndex] places further, if there is one. *)
Lemma fillet_edge_lookup (edges : list Edge) (currentEdgeIndex edgeIndex : Z) :
  fillet_edge edges currentEdgeIndex edgeIndex
  = if edgeIndex <? currentEdgeIndex then None
    else edges !! Z.to_nat (edgeIndex - currentEdgeIndex).
Proof.
  revert currentEdgeIndex.
  induction edges as [| edge rest IH]; intros current; cbn [fillet_edge].
  - destruct (edgeIndex <? current); reflexivity.
  - destruct (Z.leb_spec current edgeIndex) as [Hle | Hgt];
      destruct (Z.ltb_spec edgeIndex current) as [Hlt | Hge]; try lia; [| reflexivity].
    destruct (Z.eqb_spec current edgeIndex) as [-> | Hne].
    + rewrite Z.sub_diag. reflexivity.
    + rewrite IH. destruct (Z.ltb_spec edgeIndex (current + 1)); [lia |].
      replace (Z.to_nat (edgeIndex - current))
        with (S (Z.to_nat (edgeIndex - (current + 1)))) by lia.
      reflexivity.
Qed.

(** X14: [addFillet] on a geometry that is not null builds the fillet with the
    radius on the one edge that has the number [edgeIndex] among the edges of
    the shape, counted from 0; with a negative number, or one that is not
    less than the number of edges, it builds a fillet of no edge at all.
    [addChamfer] is that fillet with half the distance for radius. *)
Theorem fillet_selects_edge W M geometry (edgeIndex : Z) (radius distance : float) :
  isNull W geometry = false ->
  let edges := TopExp_edges M (shape geometry) in
  let selected (r : float) :=
    match (if 0 <=? edgeIndex then edges !! Z.to_nat edgeIndex else None) with
    | Some edge => [(r, edge)]
    | None => []
    end in
  addFillet W M geometry edgeIndex radius
  = built M (BRepFilletAPI_MakeFillet M (shape geometry) (selected radius)) /\
  addChamfer W M geometry edgeIndex distance
  = built M (BRepFilletAPI_MakeFillet M (shape geometry)
               (selected (PrimFloat.mul distance 0x1p-1))) /\
  (edgeIndex < 0 \/ Z.of_nat (length edges) <= edgeIndex -> selected radius = []).
Proof.
  intros Hnull edges selected. subst selected edges.
  unfold addChamfer, addFillet. rewrite Hnull. cbn zeta.
  rewrite fillet_edge_lookup, Z.sub_0_r.
  destruct (Z.ltb_spec edgeIndex 0) as [Hneg | Hpos];
    destruct (Z.leb_spec 0 edgeIndex) as [Hpos' | Hneg']; try lia.
  - repeat split; reflexivity.
  - split; [reflexivity |]. split; [reflexivity |].
    intros [Hlt | Hge]; [lia |].
    rewrite lookup_ge_None_2 by lia. reflexivity.
Qed.

(** X15: A null geometry never reaches the kernel: every function of the facade
    that takes a geometry answers a null one at once, in every world and
    with every modeler, by the null geometry, by empty mesh data, by a box
    of zeros, by scores of zero or by [false]. *)
Theorem null_geometry_is_answered_at_once W M geometry (other : GeometryWrapper)
    (edgeIndex : Z) (amount : float) (filename : string) :
  isNull W geometry = true ->
  unionShapes W M geometry other = Returns (null_geometry M) /\
  unionShapes W M other geometry = Returns (null_geometry M) /\
  cutShapes W M geometry other = Returns (null_geometry M) /\
  cutShapes W M other geometry = Returns (null_geometry M) /\
  intersectShapes W M geometry other = Returns (null_geometry M) /\
  intersectShapes W M other geometry = Returns (null_geometry M) /\
  addFillet W M geometry edgeIndex amount = Returns (null_geometry M) /\
  addChamfer W M geometry edgeIndex amount = Returns (null_geometry M) /\
  extrude W M geometry amount = Returns (null_geometry M) /\
  revolve W M geometry tt amount = Returns (null_geometry M) /\
  getMeshData W M geometry = Returns (mk_MeshData [] [] []) /\
  getBoundingBox W geometry = Returns (mk_BoundingBox 0 0 0 0 0 0) /\
  analyzeManufacturability W geometry = ([], mk_Scores 0 0 0) /\
  exportToSTEP W geometry filename = Returns false /\
  exportToIGES W M geometry filename = Returns false /\
  exportToSTL W M geometry filename = Returns false.
Proof.
  intros Hnull.
  unfold unionShapes, cutShapes, intersectShapes, addFillet, addChamfer, extrude,
    revolve, getMeshData, getBoundingBox, analyzeManufacturability, exportToSTEP,
    exportToIGES, exportToSTL.
  rewrite Hnull, orb_true_r. cbn.
  repeat split; reflexivity.
Qed.

Lemma int_wrap_small (z : Z) : - 2 ^ 31 <= z <= INT_MAX -> int_wrap z = z.
Proof.
  unfold int_wrap, INT_MAX. intros Hz. rewrite Z.mod_small by lia. lia.
Qed.

Lemma coordinates_app (a b : list gp_Pnt) :
  coordinates (a ++ b) = coordinates a ++ coordinates b.
Proof. unfold coordinates. rewrite map_app, concat_app. reflexivity. Qed.

Lemma zero_based_app (a b : list (Z * Z * Z)) :
  zero_based (a ++ b) = zero_based a ++ zero_based b.
Proof. unfold zero_based. rewrite map_app, concat_app. reflexivity. Qed.

Lemma mesh_data_nodes_coordinates W M (tr : Trsf) (nodes : list gp_Pnt)
    (vs : list float) :
  (forall p, Transforms M tr p = Transform W tr p) ->
  mesh_data_nodes M tr nodes vs = vs ++ coordinates (map (Transform W tr) nodes).
Proof.
  intros Hsame. revert vs.
  induction nodes as [| p rest IH]; intros vs; cbn [mesh_data_nodes map].
  - cbn. rewrite app_nil_r. reflexivity.
  - rewrite IH, Hsame, <- app_assoc. reflexivity.
Qed.

Lemma mesh_data_triangles_zero_based (triangles : list (Z * Z * Z))
    (vertexOffset n : Z) (idx : list Z) :
  0 <= vertexOffset -> vertexOffset + n <= INT_MAX ->
  Forall (triangle_within 0 n) triangles ->
  mesh_data_triangles triangles vertexOffset idx
  = idx ++ zero_based (map (shift vertexOffset) triangles).
Proof.
  intros Hoff Hmax. revert idx.
  induction triangles as [| [[n1 n2] n3] rest IH]; intros idx Hall;
    cbn [mesh_data_triangles map].
  - cbn. rewrite app_nil_r. reflexivity.
  - apply Forall_cons in Hall as [(H1 & H2 & H3) Hall].
    rewrite IH by exact Hall.
    unfold INT_MAX in *.
    rewrite !(int_wrap_small (vertexOffset + _)) by (unfold INT_MAX; lia).
    rewrite !int_wrap_small by (unfold INT_MAX; lia).
    rewrite <- app_assoc. reflexivity.
Qed.

Lemma mesh_data_faces_export W M (faces : list Face) (vs : list float) (idx : list Z)
    (vertexOffset : Z) :
  (forall tr p, Transforms M tr p = Transform W tr p) ->
  Forall (face_in_range W) faces ->
  0 <= vertexOffset ->
  vertexOffset + Z.of_nat (length (export_vertices W faces)) <= INT_MAX ->
  mesh_data_faces W M faces vertexOffset vs idx
  = (vs ++ coordinates (export_vertices W faces),
     idx ++ zero_based (export_triangles W faces vertexOffset)).
Proof.
  intros Hsame Hall. revert vs idx vertexOffset.
  induction Hall as [| face rest Hface Hall IH]; intros vs idx off Hoff Hmax;
    cbn [mesh_data_faces export_triangles].
  - cbn. rewrite !app_nil_r. reflexivity.
  - rewrite export_vertices_cons, length_app in Hmax.
    rewrite export_vertices_cons.
    unfold face_in_range, face_vertices, face_triangles in *.
    destruct (BRep_Tool_Triangulation W face) as [[tri tr] |].
    + rewrite length_map in *. unfold NbNodes in *.
      rewrite int_wrap_small by (unfold INT_MAX in *; lia).
      rewrite IH by lia.
      rewrite (mesh_data_nodes_coordinates W) by apply Hsame.
      rewrite (mesh_data_triangles_zero_based _ _ (Z.of_nat (length (Nodes tri))))
        by (lia || assumption).
      rewrite coordinates_app, zero_based_app, <- !app_assoc. reflexivity.
    + cbn [length app map] in *. rewrite Z.add_0_r.
      apply IH; [exact Hoff | lia].
Qed.

Lemma coordinates_length (points : list gp_Pnt) :
  length (coordinates points) = (3 * length points)%nat.
Proof.
  unfold coordinates. induction points as [| p rest IH]; [reflexivity |].
  cbn [map concat length app]. rewrite IH. lia.
Qed.

Lemma zero_based_within (triangles : list (Z * Z * Z)) (n : Z) :
  Forall (triangle_within 0 n) triangles ->
  Forall (fun i => 0 <= i < n) (zero_based triangles).
Proof.
  unfold zero_based.
  induction 1 as [| [[g1 g2] g3] rest (H1 & H2 & H3) Hin IH]; [constructor |].
  cbn [map concat app]. repeat (constructor; [lia |]). exact IH.
Qed.

(** X16: [getMeshData] and [occt_generate_mesh_obj] on the same shape.  The two
    functions call the mesher with different parameters; whenever the two
    calls deliver the same faces (faces as the kernel delivers them, with no
    more vertices than an [int] counts, points transformed alike), and the
    text export of the handle returns 1, the two results hold the same mesh:
    with [global_vertices] and [global_faces] the lists that the loop of the
    text export collects and writes into its buffer, [getMeshData] returns
    the coordinates of [global_vertices], three per vertex, in the same order
    and with the same copies of shared points, and as indices the numbers of
    [global_faces], each lowered by one and within the vertex count. *)
Theorem mesh_data_matches_text_export W M (handle : Z) (deflection : float)
    (linear_deflection : Z) (out_buf out_len : option Z) out_error err_len
    (s : @state Shape) geometry (meshed meshed' : Shape) :
  shape_registry s !! handle = Some (shape geometry) ->
  isNull W geometry = false ->
  BRepMesh_IncrementalMesh W (shape geometry)
    (if PrimFloat.ltb 0 deflection then deflection else double_0_1)
    linear_deflection = Done meshed ->
  IncrementalMesh M (shape geometry) double_0_01 = Done meshed' ->
  TopExp_faces W meshed' = TopExp_faces W meshed ->
  (forall tr p, Transforms M tr p = Transform W tr p) ->
  Forall (face_in_range W) (TopExp_faces W meshed) ->
  Z.of_nat (length (export_vertices W (TopExp_faces W meshed))) <= INT_MAX ->
  let r := occt_generate_mesh_obj W handle deflection linear_deflection out_buf out_len
             out_error err_len s in
  ret r = Returns 1 ->
  exists (p : Z) (global_vertices : list gp_Pnt) (global_faces : list (Z * Z * Z)),
    let text := obj_text W global_vertices global_faces in
    let size := uint64_wrap (Z.of_nat (String.length text)) in
    mesh_faces W (TopExp_faces W meshed) [] [] = Some (global_vertices, global_faces) /\
    outs r = (Some p, Some size) /\
    heap (post r) !! p = Some (take (Z.to_nat size) (list_byte_of_string text)) /\
    getMeshData W M geometry
    = Returns (mk_MeshData (coordinates global_vertices) (zero_based global_faces) []) /\
    length (coordinates global_vertices) = (3 * length global_vertices)%nat /\
    Forall (fun i => 0 <= i < Z.of_nat (length global_vertices)) (zero_based global_faces).
Proof.
  intros Hreg Hnull Hmesh Hmesh' Hfaces Hsame Hrange Hmax r Hret. subst r.
  unfold occt_generate_mesh_obj in *.
  destruct out_buf as [b |]; [| discriminate Hret].
  destruct out_len as [l |]; [| discriminate Hret].
  pose proof (mesh_faces_export W (TopExp_faces W meshed) [] [] Hrange
                ltac:(cbn [length]; lia)) as Hloop.
  cbn [app length Z.of_nat] in Hloop.
  set (global_vertices := export_vertices W (TopExp_faces W meshed)) in *.
  set (global_faces := export_triangles W (TopExp_faces W meshed) 0) in *.
  set (text := obj_text W global_vertices global_faces).
  assert (mesh_try W (shape geometry) deflection linear_deflection out_error err_len s
          = Done (inl (emit_buffer W (list_byte_of_string text)
                         (Z.of_nat (String.length text)) out_error err_len s))) as Htry.
  { unfold mesh_try. cbn zeta. rewrite Hmesh, Hloop. reflexivity. }
  rewrite Hreg, Htry in *. clear Htry.
  destruct (emit_buffer_cases W (list_byte_of_string text)
              (Z.of_nat (String.length text)) out_error err_len s)
    as [[Hfailed Hemit] | [Hptr Hemit]]; cbn zeta in Hemit; rewrite Hemit in *.
  { discriminate Hret. }
  exists (malloc W (heap s) (uint64_wrap (Z.of_nat (String.length text)))),
    global_vertices, global_faces.
  cbn zeta. fold text.
  split; [exact Hloop |]. split; [reflexivity |].
  split; [cbn; apply lookup_insert_eq |].
  split.
  { unfold getMeshData. rewrite Hnull, Hmesh', Hfaces.
    rewrite (mesh_data_faces_export W M _ [] [] 0 Hsame Hrange) by (fold global_vertices; lia).
    reflexivity. }
  split; [apply coordinates_length |].
  apply zero_based_within.
  pose proof (export_triangles_within W (TopExp_faces W meshed) 0 ltac:(lia) Hrange)
    as Hin.
  rewrite Z.add_0_l in Hin. exact Hin.
Qed.

(** X18: [revolve] is a placeholder: for every profile that is not null, whatever
    the axis and the angle, it is the cylinder of radius 25 and height 50 that
    [createCylinder] makes; the profile is not given to the kernel. *)
Theorem revolve_is_a_cylinder {Val : Type} W M (profile : GeometryWrapper)
    (axis : Val) (angle : float) :
  isNull W profile = false ->
  revolve W M profile axis angle = createCylinder M 25 50.
Proof.
  intros Hnull. unfold revolve, createCylinder. rewrite Hnull. reflexivity.
Qed.

(** X19: The two facades agree on bounds.  When [occt_get_bounds] returns 1 for a
    handle and fills six cells, [getBoundingBox] on the shape registered
    under that handle, if it is not null, gives the three minima as corner
    and the differences of the maxima and the minima as extents. *)
Theorem bounding_box_agrees W (handle : Z) (a b c d e f a' b' c' d' e' f' : float)
    out_error err_len (s : @state Shape) (registered : Shape) :
  shape_registry s !! handle = Some registered ->
  IsNull W registered = false ->
  let r := occt_get_bounds W handle (Some a) (Some b) (Some c) (Some d) (Some e) (Some f)
             out_error err_len s in
  ret r = Returns 1 ->
  outs r = [Some a'; Some b'; Some c'; Some d'; Some e'; Some f'] ->
  getBoundingBox W (mk_Geometry registered)
  = Returns (mk_BoundingBox a' b' c'
               (PrimFloat.sub d' a') (PrimFloat.sub e' b') (PrimFloat.sub f' c')).
Proof.
  intros Hreg Hnull r Hret Houts. subst r.
  unfold occt_get_bounds in *. rewrite Hreg in *.
  unfold getBoundingBox, isNull. cbn [shape]. rewrite Hnull.
  destruct (Bnd_Box_Get W registered) as [box | [what |]];
    [| discriminate Hret | discriminate Hret].
  cbn in Houts. injection Houts as <- <- <- <- <- <-. reflexivity.
Qed.

End FacadeProperties.

(** ** The theorems at work in the small world *)

Import Fixture.

Lemma two_shapes_counter_ahead : counter_ahead two_shapes.
Proof.
  split; [cbn; lia |].
  intros k Hk. cbn in *.
  apply lookup_insert_is_Some in Hk as [<- | [_ Hk]]; [lia |].
  apply lookup_insert_is_Some in Hk as [<- | [_ [x Hx]]]; [lia |].
  rewrite lookup_empty in Hx. discriminate Hx.
Qed.

(** Releasing handle 1 twice. *)
Lemma release_then_release_again_witness :
  shape_registry two_shapes !! 1 = Some 2 /\
  let r1 := occt_release_handle 1 None 0 two_shapes in
  let r2 := occt_release_handle 1 (Some buffer) 48 (post r1) in
  ret r1 = Returns 1 /\ ret r2 = Returns 0 /\
  err r2 = write_error "handle not found" (Some buffer) 48.
Proof.
  split; [reflexivity |].
  destruct (release_then_release_again 1 2 two_shapes None 0 (Some buffer) 48 eq_refl)
    as (H1 & _ & _ & _ & _ & _ & H2 & H3 & _).
  split; [exact H1 |]. split; [exact H2 | exact H3].
Defined.

(** The claim C2 as the specification words it fails when a handle is not
    registered: with handle 7 unknown, "bogus" is answered by "target or tool
    handle not found", not by "unknown boolean operation". *)
Lemma boolean_unknown_operation_unregistered :
  ("bogus" ∉ boolean_names) /\
  ret bogus_unregistered = Returns 0 /\
  err bogus_unregistered
  = write_error "target or tool handle not found" (Some buffer) 48 /\
  err bogus_unregistered <> write_error "unknown boolean operation" (Some buffer) 48.
Proof.
  split; [| split; [| split]].
  - intros Hin. apply list_elem_of_In in Hin. cbn in Hin. intuition discriminate.
  - reflexivity.
  - reflexivity.
  - vm_compute. discriminate.
Qed.

Lemma bogus_not_a_name : default "" (Some "bogus") ∉ boolean_names.
Proof.
  intros Hin. apply list_elem_of_In in Hin. cbn in Hin. intuition discriminate.
Qed.

(** "bogus" with both handles registered. *)
Lemma boolean_unknown_operation_witness :
  (default "" (Some "bogus") ∉ boolean_names) /\
  err (occt_boolean (world 4096) 1 2 (Some "bogus") 0 (Some buffer) 48 two_shapes)
  = write_error "unknown boolean operation" (Some buffer) 48.
Proof.
  split; [exact bogus_not_a_name |].
  destruct (boolean_unknown_operation (world 4096) 1 2 (Some "bogus") 0
              (Some buffer) 48 two_shapes bogus_not_a_name) as (_ & _ & Herr).
  exact Herr.
Defined.

(** A null [out_len]. *)
Lemma null_output_pointers_witness :
  ((Some 7 : option Z) = None \/ (None : option Z) = None) /\
  ret (occt_export_step (world 4096) 1 (Some 7) None (Some buffer) 48 two_shapes)
  = Returns 0.
Proof.
  split; [right; reflexivity |].
  destruct (null_output_pointers (world 4096) 1 0 0 (Some 7) None (Some buffer) 48
              two_shapes (or_intror eq_refl)) as [Hexport _].
  rewrite Hexport. reflexivity.
Defined.



(** A fillet of handle 1. *)
Lemma fillet_duplicates_target_witness :
  counter_ahead two_shapes /\
  let r := occt_fillet 1 (Some [10; 11]) 2 1 0 None 0 two_shapes in
  ret r = Returns 3 /\
  shape_registry (post r) !! 3 = Some 2 /\ shape_registry (post r) !! 1 = Some 2.
Proof.
  split; [exact two_shapes_counter_ahead |].
  pose proof (fillet_duplicates_target 1 (Some [10; 11]) 2 1 0 None 0 two_shapes
                two_shapes_counter_ahead) as H.
  cbn zeta in H.
  change (shape_registry two_shapes !! 1) with (Some 2) in H.
  destruct H as (Hret & _ & _ & _ & _ & Hh & Ht & _).
  split; [exact Hret |]. split; [exact Hh | exact Ht].
Defined.

(** The session of the small world: the handles are 2, 3 and 4 (1 went to the
    name of the temporary file), and the released 2 does not come back. *)
Lemma session_run : run session initial_state = ((run session initial_state).1, [2; 3; 4]).
Proof. vm_compute. reflexivity. Qed.

Lemma issued_handles_increase_witness :
  counter_ahead (@initial_state Z) /\
  next_handle (@initial_state Z) + 2 * Z.of_nat (length session) < 2 ^ 64 /\
  StronglySorted Z.lt [2; 3; 4] /\ NoDup [2; 3; 4].
Proof.
  split; [exact initial_state_counter_ahead |].
  split; [cbn; lia |].
  destruct (issued_handles_increase session initial_state _ [2; 3; 4]
              initial_state_counter_ahead ltac:(cbn; lia) session_run)
    as (_ & Hsorted & Hnodup & _).
  split; [exact Hsorted | exact Hnodup].
Defined.


Lemma show_no_endl (d : float) : count_endl (show d) = 0%nat.
Proof.
  unfold show. destruct (PrimFloat.eqb d 0); [reflexivity |].
  destruct (PrimFloat.eqb d 1); reflexivity.
Qed.

Lemma two_faces_in_range : Forall (face_in_range (world 4096)) (TopExp_faces (world 4096) 2).
Proof.
  repeat (apply Forall_cons; split); try apply Forall_nil; try exact I;
    vm_compute; repeat split; solve [reflexivity | discriminate].
Qed.


(** ** Further theorems at work *)

Import Faults.

Lemma later_session_run :
  run later_session two_shapes = ((run later_session two_shapes).1, [3; 4]).
Proof. vm_compute. reflexivity. Qed.

Lemma later_session_keeps_1 : Forall (fun ev => releases 1 ev = false) later_session.
Proof. repeat constructor. Qed.

(** Handle 1 keeps its shape through the later session. *)
Lemma registered_shape_persists_witness :
  counter_ahead two_shapes /\
  shape_registry two_shapes !! 1 = Some 2 /\
  shape_registry (run later_session two_shapes).1 !! 1 = Some 2.
Proof.
  split; [exact two_shapes_counter_ahead |]. split; [reflexivity |].
  apply (registered_shape_persists later_session two_shapes _ [3; 4] 1 2
           two_shapes_counter_ahead ltac:(cbn; lia) eq_refl later_session_keeps_1
           later_session_run).
Defined.

Lemma after_release_counter_ahead : counter_ahead after_release.
Proof.
  assert (next_handle after_release = 3) as Hnext by reflexivity.
  assert (shape_registry after_release = delete 2 (shape_registry two_shapes)) as Hreg
    by reflexivity.
  unfold counter_ahead. rewrite Hnext, Hreg.
  split; [lia |].
  intros k Hk. apply lookup_delete_is_Some in Hk as [_ Hk].
  apply two_shapes_counter_ahead. exact Hk.
Qed.

Lemma session_after_release :
  run (tail later_session) after_release
  = ((run (tail later_session) after_release).1, [3; 4]).
Proof. vm_compute. reflexivity. Qed.

(** The released handle 2 stays unregistered through what follows. *)
Lemma stale_handle_stays_stale_witness :
  shape_registry after_release !! 2 = None /\
  shape_registry (run (tail later_session) after_release).1 !! 2 = None.
Proof.
  split; [reflexivity |].
  apply (stale_handle_stays_stale (tail later_session) after_release _ [3; 4] 2
           after_release_counter_ahead ltac:(vm_compute; reflexivity)
           ltac:(vm_compute; reflexivity) eq_refl session_after_release).
Defined.

(** The released handle 2 is answered by "handle not found". *)
Lemma unregistered_handle_fails_witness :
  shape_registry after_release !! 2 = None /\
  occt_release_handle 2 (Some buffer) 48 after_release
  = fail "handle not found" (Some buffer) 48 after_release tt.
Proof.
  split; [reflexivity |].
  destruct (unregistered_handle_fails (world 4096) 2 1 (Some "cut") 0 0 0 0 0 None 7 9
              None None None None None None (Some buffer) 48 after_release eq_refl)
    as (_ & _ & _ & _ & _ & _ & Hrelease).
  exact Hrelease.
Defined.

(** A load of five bytes in the state of the two shapes: handle 4. *)
Lemma load_outcome_witness :
  0 <= next_handle two_shapes /\ next_handle two_shapes + 2 < 2 ^ 64 /\
  heap (post (occt_load_from_memory (world 4096) (Some "part.step") (Some step_bytes) 5
                None 0 two_shapes)) = heap two_shapes.
Proof.
  split; [cbn; lia |]. split; [cbn; lia |].
  destruct (load_outcome (world 4096) (Some "part.step") (Some step_bytes) 5 None 0
              two_shapes ltac:(cbn; lia) ltac:(cbn; lia)) as [Hheap _].
  exact Hheap.
Defined.

(** The exception of the cut algorithm leaves [occt_boolean]. *)
Lemma exceptions_at_the_boundary_witness :
  ret (exec cut_throws (Boolean 1 2 (Some "cut") 0) None 0 two_shapes)
  = Propagates other_exception /\
  post (exec cut_throws (Boolean 1 2 (Some "cut") 0) None 0 two_shapes) = two_shapes.
Proof.
  split; [reflexivity |].
  exact (proj1 (proj2 (exceptions_at_the_boundary cut_throws
                         (Boolean 1 2 (Some "cut") 0) None 0 two_shapes))).
Defined.

(** The common part of the shapes 2 and 3, registered under handle 3. *)
Lemma boolean_outcome_witness :
  counter_ahead two_shapes /\
  ret (occt_boolean (world 4096) 1 2 (Some "intersect") 0 None 0 two_shapes) = Returns 3 /\
  shape_registry
    (post (occt_boolean (world 4096) 1 2 (Some "intersect") 0 None 0 two_shapes)) !! 3
  = Some 2.
Proof.
  split; [exact two_shapes_counter_ahead |].
  pose proof (boolean_outcome (world 4096) 1 2 (Some "intersect") 0 None 0 two_shapes
                2 3 (BRepAlgoAPI_Common (world 4096)) "common failed"
                two_shapes_counter_ahead eq_refl eq_refl eq_refl) as H.
  cbn zeta in H.
  change (BRepAlgoAPI_Common (world 4096) 2 3 0) with (@Done (option Z) (Some 2)) in H.
  cbn iota in H. destruct H as (Hret & Hreg & _).
  split; [exact Hret |]. rewrite Hreg. reflexivity.
Defined.

(** The export of handle 1 hands over the 13 bytes of the file. *)
Lemma export_hands_over_one_buffer_witness :
  ret export_of_handle_1 = Returns 1 /\
  exists p len content,
    p <> 0 /\ outs export_of_handle_1 = (Some p, Some len) /\
    heap (post export_of_handle_1) = <[p := content]> (heap two_shapes).
Proof.
  split; [reflexivity |].
  destruct (export_hands_over_one_buffer (world 4096) 1 0 0 (Some 7) (Some 9) None 0
              two_shapes export_of_handle_1 (or_introl eq_refl) eq_refl)
    as (p & len & content & Hp & _ & Houts & Hheap & _).
  exists p, len, content. split; [exact Hp |]. split; [exact Houts | exact Hheap].
Defined.

(** Freeing the buffer of that export. *)
Lemma export_then_free_witness :
  heap two_shapes !! 4096 = None /\
  occt_free_buffer 4096 (post export_of_handle_1) = (Returns tt, two_shapes).
Proof.
  split; [reflexivity |].
  destruct (export_then_free (world 4096) 1 0 0 (Some 7) (Some 9) None 0
              two_shapes export_of_handle_1 4096 13 (or_introl eq_refl) eq_refl
              eq_refl eq_refl) as [Hfree _].
  exact Hfree.
Defined.

(** "handle not found" in a buffer of 48 characters with a capacity of 8. *)
Lemma write_error_within_capacity_witness :
  0 < 8 /\ 8 <= Z.of_nat (length buffer) /\
  exists out : list ascii,
    write_error "handle not found" (Some buffer) 8 = Some out /\
    length out = length buffer /\
    out !! 7%nat = Some NUL.
Proof.
  split; [lia |]. split; [cbn; lia |].
  destruct (write_error_within_capacity "handle not found" buffer 8
              ltac:(lia) ltac:(cbn; lia)) as (out & Hout & Hlen & _ & Hnul & _).
  exists out. split; [exact Hout |]. split; [exact Hlen | exact Hnul].
Defined.

(** A negative deflection. *)
Lemma mesh_default_deflection_witness :
  PrimFloat.ltb 0 (-1) = false /\
  occt_generate_mesh_obj (world 4096) 1 (-1) 0 (Some 7) (Some 9) None 0 two_shapes
  = occt_generate_mesh_obj (world 4096) 1 double_0_1 0 (Some 7) (Some 9) None 0 two_shapes.
Proof.
  split; [reflexivity |].
  apply (mesh_default_deflection (world 4096) 1 (-1) 0 (Some 7) (Some 9) None 0
           two_shapes eq_refl).
Defined.

Lemma degenerate_loop :
  mesh_faces names_node_zero [1; 2] [] []
  = Some (export_vertices names_node_zero [1; 2],
          [(1, 2, 3); (3, 2, 1); (4, 5, 6); (6, 5, 4)]).
Proof. vm_compute. reflexivity. Qed.

(** Two faces whose second triangle names the node 0: six vertices, and four
    of the six triangles. *)
Lemma mesh_loop_on_any_triangulation_witness :
  Z.of_nat (length ([] : list gp_Pnt)
            + length (export_vertices names_node_zero [1; 2])) <= INT_MAX /\
  export_triangles_kept names_node_zero [1; 2] 0
  = [(1, 2, 3); (3, 2, 1); (4, 5, 6); (6, 5, 4)] /\
  Forall (triangle_within 0 6) (export_triangles_kept names_node_zero [1; 2] 0).
Proof.
  split; [vm_compute; discriminate |]. split; [reflexivity |].
  destruct (mesh_loop_on_any_triangulation names_node_zero [1; 2] [] _ [] _
              ltac:(vm_compute; discriminate) degenerate_loop)
    as (_ & _ & Hwithin).
  exact Hwithin.
Defined.

(** Two uploads under the same file name, with the counter at 3 and at 1. *)
Lemma upload_paths_distinct_witness :
  next_handle two_shapes <> next_handle (@initial_state Z) /\
  (write_temp_file (world 4096) (Some "a.step") step_bytes 5 None 0 two_shapes).1.1
  <> (write_temp_file (world 4096) (Some "a.step") step_bytes 5 None 0 initial_state).1.1.
Proof.
  assert (next_handle two_shapes <> next_handle (@initial_state Z)) as Hne
    by (cbn; lia).
  split; [exact Hne |].
  apply (upload_paths_distinct (world 4096) (world 4096) (Some "a.step") (Some "a.step")
           step_bytes step_bytes 5 5 None 0 None 0 two_shapes initial_state Hne);
    vm_compute; discriminate.
Defined.


Import Bindings BindingsFixture.

(** A fillet on the edge number 1 of the shape 3, and on an edge number that
    the shape does not have. *)
Lemma fillet_selects_edge_witness :
  isNull (world 4096) (mk_Geometry 3) = false /\
  addFillet (world 4096) modeler (mk_Geometry 3) 1 2 = Returns (mk_Geometry 4) /\
  addFillet (world 4096) modeler (mk_Geometry 3) 3 2 = Returns (mk_Geometry 3).
Proof.
  split; [reflexivity |].
  destruct (fillet_selects_edge (world 4096) modeler (mk_Geometry 3) 1 2 2 eq_refl)
    as (Hin & _ & _).
  destruct (fillet_selects_edge (world 4096) modeler (mk_Geometry 3) 3 2 2 eq_refl)
    as (Hout & _ & _).
  split; [rewrite Hin | rewrite Hout]; reflexivity.
Defined.

(** The null geometry. *)
Lemma null_geometry_is_answered_at_once_witness :
  isNull (world 4096) (null_geometry modeler) = true /\
  unionShapes (world 4096) modeler (null_geometry modeler) (mk_Geometry 3)
  = Returns (null_geometry modeler) /\
  getMeshData (world 4096) modeler (null_geometry modeler)
  = Returns (mk_MeshData [] [] []).
Proof.
  split; [reflexivity |].
  destruct (null_geometry_is_answered_at_once (world 4096) modeler
              (null_geometry modeler) (mk_Geometry 3) 0 1 "part.step" eq_refl)
    as (Hunion & _ & _ & _ & _ & _ & _ & _ & _ & _ & Hmesh & _).
  split; [exact Hunion | exact Hmesh].
Defined.

Lemma same_transformation (tr : unit) (p : gp_Pnt) :
  Transforms modeler tr p = Transform (world 4096) tr p.
Proof. reflexivity. Qed.

(** The shape 2, of two faces, under handle 1: the text export and
    [getMeshData] hold the same mesh, 24 coordinates for 8 vertices and the
    indices of the four triangles counted from 0. *)
Lemma mesh_data_matches_text_export_witness :
  shape_registry two_shapes !! 1 = Some (shape (mk_Geometry 2)) /\
  ret mesh_of_two_faces = Returns 1 /\
  exists (p : Z) (global_vertices : list gp_Pnt) (global_faces : list (Z * Z * Z)),
    mesh_faces (world 4096) (TopExp_faces (world 4096) 2) [] []
    = Some (global_vertices, global_faces) /\
    heap (post mesh_of_two_faces) !! p
    = Some (take (Z.to_nat (uint64_wrap (Z.of_nat (String.length
                (obj_text (world 4096) global_vertices global_faces)))))
              (list_byte_of_string (obj_text (world 4096) global_vertices global_faces))) /\
    getMeshData (world 4096) modeler (mk_Geometry 2)
    = Returns (mk_MeshData (coordinates global_vertices) (zero_based global_faces) []) /\
    length (coordinates global_vertices) = 24%nat /\
    zero_based global_faces = [0; 1; 2; 0; 2; 3; 4; 5; 6; 4; 6; 7].
Proof.
  split; [reflexivity |]. split; [reflexivity |].
  destruct (mesh_data_matches_text_export (world 4096) modeler 1 0 0 (Some 7) (Some 9)
              None 0 two_shapes (mk_Geometry 2) 2 2
              eq_refl eq_refl eq_refl eq_refl eq_refl same_transformation
              two_faces_in_range ltac:(vm_compute; discriminate) eq_refl)
    as (p & global_vertices & global_faces & Hloop & _ & Hheap & Hdata & _ & _).
  exists p, global_vertices, global_faces.
  split; [exact Hloop |]. split; [exact Hheap |]. split; [exact Hdata |].
  vm_compute in Hloop. injection Hloop as <- <-.
  split; reflexivity.
Defined.

(** A revolve of the shape 3. *)
Lemma revolve_is_a_cylinder_witness :
  isNull (world 4096) (mk_Geometry 3) = false /\
  revolve (world 4096) modeler (mk_Geometry 3) tt 1 = Returns (mk_Geometry 3).
Proof.
  split; [reflexivity |].
  rewrite (revolve_is_a_cylinder (world 4096) modeler (mk_Geometry 3) tt 1 eq_refl).
  reflexivity.
Defined.

(** The bounds of handle 1, by both facades. *)
Lemma bounding_box_agrees_witness :
  shape_registry two_shapes !! 1 = Some 2 /\
  getBoundingBox (world 4096) (mk_Geometry 2)
  = Returns (mk_BoundingBox 0 0 0 (PrimFloat.sub 1 0) (PrimFloat.sub 1 0)
               (PrimFloat.sub 1 0)).
Proof.
  split; [reflexivity |].
  apply (bounding_box_agrees (world 4096) 1 5 5 5 5 5 5 0 0 0 1 1 1 None 0 two_shapes 2
           eq_refl eq_refl eq_refl eq_refl).
Defined.
